(** * donuts.node HTTP pipeline: a shallow embedding and its verified properties

    The development follows the TypeScript sources
      - [src/http/http-pipeline.ts]          (class [HttpPipeline]),
      - [src/http/request-handlers/node.ts]  (the node transport handler and
        the certificate-info extractor),
      - the Service Fabric AAD response handler ([createResponseHandler],
        [acquireTokenAsync]),
      - the [donut.node/http] type declarations.

    Conventions.
      - An optional property [f?: T] is a field of type [option T]; [None]
        stands for an absent property.
      - An awaited promise is described by how it settles: [Fulfil v],
        [Reject e], or [Never] (no [resolve]/[reject] is ever called).
      - In-place mutation of the request object by a handler is written as
        explicit state passing: a handler returns the request it leaves
        behind.
      - JavaScript arrays that are shared by reference live in a store
        indexed by locations. *)

From stdpp Require Import gmap strings list fin_maps pretty.
From Stdlib Require Import ZArith String Ascii.
From Stdlib.Strings Require Import Byte.

Local Open Scope string_scope.
Local Open Scope list_scope.
Local Open Scope Z_scope.

(** ** Data model ([donut.node/http]) *)

Inductive SslVersion := TLS | TLS1_2 | TLS1_1 | TLS1_0 | SSL3_0.

Inductive HttpMethod :=
  GET | POST | PUT | PATCH | DELETE | HEAD | CONNECT | OPTIONS | TRACE.

Definition method_string (m : HttpMethod) : string :=
  match m with
  | GET => "GET" | POST => "POST" | PUT => "PUT" | PATCH => "PATCH"
  | DELETE => "DELETE" | HEAD => "HEAD" | CONNECT => "CONNECT"
  | OPTIONS => "OPTIONS" | TRACE => "TRACE"
  end.

(** [IHttpHeader] *)
Record IHttpHeader := { name : string; value : string }.

(** [ICertificate]: the variant is selected by the [type] string; anything
    but ["pem"] and ["pfx"] is an unrecognised variant. *)
Inductive ICertificate :=
| PemCertificate (cert : string) (key : option string) (password : option string)
| PfxCertificate (pfx : list byte) (password : option string)
| UnknownCertificate (type : string).

(** A request body is [any]: a [Buffer], a string, or a structured value,
    carried here by its [JSON.stringify] rendering. *)
Inductive Body :=
| BodyBuffer (b : list byte)
| BodyString (s : string)
| BodyValue (json : string).

(** [ISfAadMetadata] *)
Record AadMetadataFields := {
  authority : string; client : string; cluster : string;
  login : string; redirect : string; tenant : string
}.

Record ISfAadMetadata := { md_type : string; metadata : AadMetadataFields }.

(** [IHttpRequest] *)
Record IHttpRequest := {
  sslVersion : option SslVersion;
  clientCert : option ICertificate;
  method : HttpMethod;
  url : string;
  headers : option (list IHttpHeader);
  body : option Body
}.

(** [IHttpResponse]; [data] is the decoded payload, absent when the body was
    not decoded. *)
Record IHttpResponse := {
  httpVersion : string;
  statusCode : Z;
  statusMessage : string;
  data : option ISfAadMetadata;
  res_headers : list IHttpHeader;
  res_body : list byte
}.

(** JavaScript errors: [new Error(message)] and the engine's [TypeError]. *)
Inductive JsError :=
| Error (message : string)
| TypeError (message : string).

(** How an awaited promise settles. *)
Inductive Settle (A : Type) :=
| Fulfil (a : A)
| Reject (e : JsError)
| Never.
Arguments Fulfil {A} a.
Arguments Reject {A} e.
Arguments Never {A}.

(** ** Template merge ([HttpPipeline.requestAsync], lines 48-61) *)

(** [Object.assign(Object.create(null), template, request)]: every property
    the request has wins, the template fills the others. *)
Definition Object_assign (template request : IHttpRequest) : IHttpRequest :=
  {| sslVersion := match sslVersion request with
                   | Some v => Some v | None => sslVersion template end;
     clientCert := match clientCert request with
                   | Some c => Some c | None => clientCert template end;
     method := method request;
     url := url request;
     headers := match headers request with
                | Some h => Some h | None => headers template end;
     body := match body request with
             | Some b => Some b | None => body template end |}.

(** The [headers] array built by lines 49-57.  Note line 56:
    [headers.push(...headers)] appends the array to itself. *)
Definition mergedHeaders (template request : IHttpRequest) : list IHttpHeader :=
  let headers0 : list IHttpHeader := [] in
  let headers1 :=
    match headers template with
    | Some th => headers0 ++ th
    | None => headers0
    end in
  match headers request with
  | Some _ => headers1 ++ headers1
  | None => headers1
  end.

Definition set_headers (request : IHttpRequest) (h : list IHttpHeader) : IHttpRequest :=
  {| sslVersion := sslVersion request; clientCert := clientCert request;
     method := method request; url := url request;
     headers := Some h; body := body request |}.

(** The request the handlers receive. *)
Definition effectiveRequest (requestTemplate : option IHttpRequest)
    (request : IHttpRequest) : IHttpRequest :=
  match requestTemplate with
  | Some template =>
      let headers := mergedHeaders template request in
      set_headers (Object_assign template request) headers
  | None => request
  end.

(** What the contract asks of the header merge: template headers first, then
    the request's own. *)
Definition intendedHeaders (template request : IHttpRequest) : list IHttpHeader :=
  default [] (headers template) ++ default [] (headers request).

(** ** Arrays shared by reference *)

Section Arrays.
Context {A : Type}.

(** [[]]: a fresh, empty array. *)
Definition array_new (h : gmap nat (list A)) : nat * gmap nat (list A) :=
  let l := fresh (dom h) in (l, <[l := []]> h).

(** [a.push(...xs)] on the array at location [l]. *)
Definition array_push (l : nat) (xs : list A) (h : gmap nat (list A))
    : gmap nat (list A) :=
  alter (fun a => a ++ xs) l h.

Definition array_read (l : nat) (h : gmap nat (list A)) : list A :=
  default [] (h !! l).
End Arrays.

(** ** The pipeline ([HttpPipeline]) *)

(** The object: the public [requestTemplate] field and the two private
    array references. *)
Record HttpPipeline := {
  requestTemplate : option IHttpRequest;
  _requestHandlers : nat;
  _responseHandlers : nat
}.

(** What one call of [requestAsync] does that an observer can see, in order:
    the two [log.writeInfoAsync] calls and the handler invocations (by their
    index in the array). *)
Inductive Event :=
| EvLogInfo (message : string)
| EvRequestHandler (index : nat)
| EvResponseHandler (index : nat).

Section Pipeline.
(** [W] is the state of everything outside the pipeline that a handler can
    read or change (the network, a coordinator's site map, ...).  A handler
    also hands back the request object as it leaves it.  The handler arrays
    are not part of [W]: a handler does not change them while a call runs;
    the holder of an array reference changes them between calls. *)
Context {W : Type}.

Definition HttpRequestHandler : Type :=
  HttpPipeline -> IHttpRequest -> W ->
  Settle (option IHttpResponse) * IHttpRequest * W.

Definition HttpResponseHandler : Type :=
  HttpPipeline -> IHttpRequest -> IHttpResponse -> W ->
  Settle (option IHttpResponse) * IHttpRequest * W.

Record PState := {
  trace : list Event;
  requestArrays : gmap nat (list HttpRequestHandler);
  responseArrays : gmap nat (list HttpResponseHandler);
  world : W
}.

Definition record_event (ev : Event) (w : W) (s : PState) : PState :=
  {| trace := trace s ++ [ev];
     requestArrays := requestArrays s;
     responseArrays := responseArrays s;
     world := w |}.

Definition writeInfoAsync (message : string) (s : PState) : PState :=
  record_event (EvLogInfo message) (world s) s.

(** The constructor: two fresh arrays, filled from the arrays passed in (if
    any).  [requestTemplate] is left unset; the [log] argument is the trace
    of the state. *)
Definition constructor (requestHandlers responseHandlers : option nat)
    (s : PState) : HttpPipeline * PState :=
  let '(lq, qa) := array_new (requestArrays s) in
  let '(lr, ra) := array_new (responseArrays s) in
  let qa :=
    match requestHandlers with
    | Some src => array_push lq (array_read src qa) qa
    | None => qa
    end in
  let ra :=
    match responseHandlers with
    | Some src => array_push lr (array_read src ra) ra
    | None => ra
    end in
  ({| requestTemplate := None; _requestHandlers := lq; _responseHandlers := lr |},
   {| trace := trace s; requestArrays := qa; responseArrays := ra;
      world := world s |}).

(** The accessors [get requestHandlers()] and [get responseHandlers()]. *)
Definition requestHandlers (p : HttpPipeline) : nat := _requestHandlers p.
Definition responseHandlers (p : HttpPipeline) : nat := _responseHandlers p.

(** Assignment to the public field [requestTemplate]. *)
Definition set_requestTemplate (t : option IHttpRequest) (p : HttpPipeline)
    : HttpPipeline :=
  {| requestTemplate := t;
     _requestHandlers := _requestHandlers p;
     _responseHandlers := _responseHandlers p |}.

(** Lines 67-73: the first loop.  [i] is the index of the head of [hs] in
    the array.  The result is the value of [response] when the loop is
    left. *)
Fixpoint dispatchRequest (p : HttpPipeline) (hs : list HttpRequestHandler)
    (i : nat) (request : IHttpRequest) (s : PState)
    : Settle (option IHttpResponse) * IHttpRequest * PState :=
  match hs with
  | [] => (Fulfil None, request, s)
  | handleRequestAsync :: rest =>
      let '(r, request', w') := handleRequestAsync p request (world s) in
      let s' := record_event (EvRequestHandler i) w' s in
      match r with
      | Fulfil (Some response) => (Fulfil (Some response), request', s')
      | Fulfil None => dispatchRequest p rest (S i) request' s'
      | Reject e => (Reject e, request', s')
      | Never => (Never, request', s')
      end
  end.

(** Lines 81-83: the second loop,
    [response = await handleResponseAsync(this, request, response) || response]. *)
Fixpoint processResponse (p : HttpPipeline) (hs : list HttpResponseHandler)
    (i : nat) (request : IHttpRequest) (response : IHttpResponse) (s : PState)
    : Settle IHttpResponse * IHttpRequest * PState :=
  match hs with
  | [] => (Fulfil response, request, s)
  | handleResponseAsync :: rest =>
      let '(r, request', w') := handleResponseAsync p request response (world s) in
      let s' := record_event (EvResponseHandler i) w' s in
      match r with
      | Fulfil o => processResponse p rest (S i) request' (default response o) s'
      | Reject e => (Reject e, request', s')
      | Never => (Never, request', s')
      end
  end.

Definition startMessage (request : IHttpRequest) : string :=
  "HTTP " +:+ method_string (method request) +:+ " => " +:+ url request.

Definition doneMessage (request : IHttpRequest) (response : IHttpResponse) : string :=
  "HTTP " +:+ pretty (statusCode response) +:+ " " +:+ statusMessage response
    +:+ " of HTTP " +:+ method_string (method request) +:+ " => " +:+ url request.

Definition noHandlerError : JsError := Error "No request handler handled request.".

(** [HttpPipeline.requestAsync].  Besides the settlement and the state it
    returns the request object as the call leaves it. *)
Definition requestAsync (p : HttpPipeline) (request : IHttpRequest) (s : PState)
    : Settle IHttpResponse * IHttpRequest * PState :=
  let request := effectiveRequest (requestTemplate p) request in
  let s := writeInfoAsync (startMessage request) s in
  let '(r, request, s) :=
    dispatchRequest p (array_read (_requestHandlers p) (requestArrays s)) 0%nat request s in
  match r with
  | Fulfil (Some response) =>
      let s := writeInfoAsync (doneMessage request response) s in
      processResponse p (array_read (_responseHandlers p) (responseArrays s)) 0%nat
        request response s
  | Fulfil None => (Reject noHandlerError, request, s)
  | Reject e => (Reject e, request, s)
  | Never => (Never, request, s)
  end.

(** What a caller holding the value of an accessor can do with it:
    [pipeline.requestHandlers.push(h)]. *)
Definition caller_push_requestHandler (l : nat) (h : HttpRequestHandler)
    (s : PState) : PState :=
  {| trace := trace s; requestArrays := array_push l [h] (requestArrays s);
     responseArrays := responseArrays s; world := world s |}.

Definition caller_push_responseHandler (l : nat) (h : HttpResponseHandler)
    (s : PState) : PState :=
  {| trace := trace s; requestArrays := requestArrays s;
     responseArrays := array_push l [h] (responseArrays s); world := world s |}.
End Pipeline.

Arguments PState W : clear implicits.
Arguments HttpRequestHandler W : clear implicits.
Arguments HttpResponseHandler W : clear implicits.

(** ** SHA-1 and hex encoding ([crypto.createHash("sha1")], [digest("hex")])

    The hash of Node's [crypto] module, written out after FIPS 180-4 on
    32-bit words held in [Z]. *)

Module SHA1.
Definition w32 (x : Z) : Z := x mod 2 ^ 32.

Definition add32 (x y : Z) : Z := w32 (x + y).

Definition rotl (n x : Z) : Z :=
  w32 (Z.lor (Z.shiftl x n) (Z.shiftr x (32 - n))).

Definition byte_val (b : byte) : Z := Z.of_N (Byte.to_N b).

(** Big-endian bytes of [x], [n] of them. *)
Fixpoint be_bytes (n : nat) (x : Z) : list Z :=
  match n with
  | O => []
  | S k => (Z.shiftr x (8 * Z.of_nat k)) mod 256 :: be_bytes k x
  end.

(** Message padding: a [0x80] byte, zeros up to 56 mod 64, the bit length
    on 64 bits. *)
Definition pad (msg : list Z) : list Z :=
  let len := Z.of_nat (List.length msg) in
  let k := Z.to_nat ((55 - len) mod 64) in
  msg ++ [128] ++ repeat 0 k ++ be_bytes 8 (8 * len).

Fixpoint words (fuel : nat) (bs : list Z) : list Z :=
  match fuel, bs with
  | S f, b0 :: b1 :: b2 :: b3 :: rest =>
      (Z.shiftl b0 24 + Z.shiftl b1 16 + Z.shiftl b2 8 + b3) :: words f rest
  | _, _ => []
  end.

Fixpoint blocks (fuel : nat) (ws : list Z) : list (list Z) :=
  match fuel, ws with
  | O, _ => []
  | _, [] => []
  | S f, _ => take 16 ws :: blocks f (drop 16 ws)
  end.

(** The message schedule, most recent word first. *)
Fixpoint schedule (n : nat) (rev_ws : list Z) : list Z :=
  match n with
  | O => rev_ws
  | S k =>
      let w := rotl 1 (Z.lxor (Z.lxor (Z.lxor (nth 2 rev_ws 0) (nth 7 rev_ws 0))
                                       (nth 13 rev_ws 0)) (nth 15 rev_ws 0)) in
      schedule k (w :: rev_ws)
  end.

Definition f_t (t : nat) (b c d : Z) : Z :=
  if (t <? 20)%nat then Z.lor (Z.land b c) (Z.land (Z.lxor b (2 ^ 32 - 1)) d)
  else if (t <? 40)%nat then Z.lxor (Z.lxor b c) d
  else if (t <? 60)%nat then Z.lor (Z.lor (Z.land b c) (Z.land b d)) (Z.land c d)
  else Z.lxor (Z.lxor b c) d.

Definition k_t (t : nat) : Z :=
  if (t <? 20)%nat then 0x5A827999
  else if (t <? 40)%nat then 0x6ED9EBA1
  else if (t <? 60)%nat then 0x8F1BBCDC
  else 0xCA62C1D6.

Definition State : Type := Z * Z * Z * Z * Z.

Fixpoint rounds (t : nat) (ws : list Z) (st : State) : State :=
  match ws with
  | [] => st
  | w :: rest =>
      let '(a, b, c, d, e) := st in
      let temp := add32 (add32 (add32 (add32 (rotl 5 a) (f_t t b c d)) e) (k_t t)) w in
      rounds (S t) rest (temp, a, rotl 30 b, c, d)
  end.

Definition compress (h : State) (block : list Z) : State :=
  let ws := rev (schedule 64 (rev block)) in
  let '(h0, h1, h2, h3, h4) := h in
  let '(a, b, c, d, e) := rounds 0 ws h in
  (add32 h0 a, add32 h1 b, add32 h2 c, add32 h3 d, add32 h4 e).

Definition init : State :=
  (0x67452301, 0xEFCDAB89, 0x98BADCFE, 0x10325476, 0xC3D2E1F0).

(** The 20 digest bytes. *)
Definition digest (msg : list byte) : list Z :=
  let bs := pad (map byte_val msg) in
  let ws := words (List.length bs) bs in
  let '(h0, h1, h2, h3, h4) := fold_left compress (blocks (List.length ws) ws) init in
  be_bytes 4 h0 ++ be_bytes 4 h1 ++ be_bytes 4 h2 ++ be_bytes 4 h3 ++ be_bytes 4 h4.

(** The digits of [digest("hex")]. *)
Definition hexDigits : list ascii := list_ascii_of_string "0123456789abcdef".

Definition hexDigit (n : Z) : ascii :=
  default "?"%char (hexDigits !! Z.to_nat n).

Fixpoint hex (bs : list Z) : string :=
  match bs with
  | [] => ""
  | b :: rest => String (hexDigit (b / 16)) (String (hexDigit (b mod 16)) (hex rest))
  end.

(** [hash.update(raw); hash.digest("hex")] *)
Definition digest_hex (raw : list byte) : string := hex (digest raw).
End SHA1.

(** ** The node transport handler ([request-handlers/node.ts]) *)

(** A value of [http.OutgoingHttpHeaders]: one string, or an array of them. *)
Inductive OutgoingHeader :=
| Single (v : string)
| Multi (vs : list string).

(** [applyHeaders]: a repeated name collects its values in an array. *)
Fixpoint applyHeaders (requestHeaders : gmap string OutgoingHeader)
    (headers : list IHttpHeader) : gmap string OutgoingHeader :=
  match headers with
  | [] => requestHeaders
  | header :: rest =>
      let requestHeaders :=
        match requestHeaders !! name header with
        | Some (Multi vs) => <[name header := Multi (vs ++ [value header])]> requestHeaders
        | Some (Single v) => <[name header := Multi [v; value header]]> requestHeaders
        | None => <[name header := Single (value header)]> requestHeaders
        end in
      applyHeaders requestHeaders rest
  end.

(** [generateHeaders]: the raw header list holds names at even indices and
    values at odd ones; a trailing name without value is dropped. *)
Fixpoint generateHeaders (headers : list string) : list IHttpHeader :=
  match headers with
  | n :: v :: rest => {| name := n; value := v |} :: generateHeaders rest
  | _ => []
  end.

(** [Array.prototype.findIndex]; [None] for [-1]. *)
Fixpoint findIndex {A : Type} (f : A -> bool) (l : list A) : option nat :=
  match l with
  | [] => None
  | x :: rest => if f x then Some 0%nat else S <$> findIndex f rest
  end.

(** [tls.PeerCertificate]: the distinguished names are objects, given by
    their own properties in enumeration order. *)
Record PeerCertificate := {
  subject : list (string * string);
  issuer : list (string * string);
  serialNumber : string;
  valid_from : string;
  valid_to : string;
  raw : list byte
}.

(** [new Date(s)] *)
Inductive Date := NewDate (s : string).

(** [ICertificateInfo] *)
Record ICertificateInfo := {
  subjectName : string;
  issuerName : string;
  ci_serialNumber : string;
  validStart : Date;
  validExpiry : Date;
  thumbprint : string
}.

(** [objectToString]: every property is appended as [name=value, ] and the
    last two characters are cut off. *)
Definition objectToString (obj : list (string * string)) : string :=
  let str :=
    fold_left (fun str '(propertyName, v) => str +:+ propertyName +:+ "=" +:+ v +:+ ", ")
              obj "" in
  String.substring 0 (String.length str - 2) str.

(** [toCertificateInfo] *)
Definition toCertificateInfo (cert : PeerCertificate) : ICertificateInfo :=
  {| subjectName := objectToString (subject cert);
     issuerName := objectToString (issuer cert);
     ci_serialNumber := serialNumber cert;
     validStart := NewDate (valid_from cert);
     validExpiry := NewDate (valid_to cert);
     thumbprint := SHA1.digest_hex (raw cert) |}.

(** The flattening as the specification words it: the [key=value] pairs
    joined by [", "]. *)
Definition flattenedName (obj : list (string * string)) : string :=
  String.concat ", " (map (fun '(k, v) => k +:+ "=" +:+ v) obj).

Definition isHexChar (c : ascii) : bool :=
  bool_decide (c ∈ SHA1.hexDigits).

(** [http.RequestOptions] as the handler fills them. *)
Record RequestOptions := {
  href : string;
  protocol : option string;
  opt_method : option HttpMethod;
  opt_headers : option (gmap string OutgoingHeader);
  secureProtocol : option SslVersion;
  rejectUnauthorized : option bool;
  opt_cert : option string;
  opt_key : option string;
  passphrase : option string;
  opt_pfx : option (list byte)
}.

(** [http.IncomingMessage] with its body stream: the chunks delivered and how
    the stream ends. *)
Inductive StreamEnd := StreamEnds | StreamErrors (e : JsError) | StreamStalls.

Record IncomingMessage := {
  im_httpVersion : string;
  im_statusCode : Z;
  im_statusMessage : string;
  rawHeaders : list string;
  readable : bool;
  chunks : list (list byte);
  stream_end : StreamEnd
}.

(** What the secure socket reports at [secureConnect]. *)
Record TlsHandshake := {
  authorized : bool;
  peerCertificate : option PeerCertificate;
  authorizationError : JsError
}.

Definition ServerCertValidator : Type := option string -> ICertificateInfo -> bool.

(** [generateBodyAsync] *)
Definition generateBodyAsync (httpResponse : IncomingMessage) : Settle (list byte) :=
  if negb (readable httpResponse) then Fulfil []
  else
    match stream_end httpResponse with
    | StreamEnds => Fulfil (List.concat (chunks httpResponse))
    | StreamErrors err => Reject err
    | StreamStalls => Never
    end.

(** The ["response"] listener: the normalised response.  The listener is
    an [async] function: when reading the body fails, its own promise is
    rejected and [resolve] is never called. *)
Definition onResponse (response : IncomingMessage) : Settle (option IHttpResponse) :=
  match generateBodyAsync response with
  | Fulfil b =>
      Fulfil (Some {| httpVersion := im_httpVersion response;
                      statusCode := im_statusCode response;
                      statusMessage := im_statusMessage response;
                      data := None;
                      res_headers := generateHeaders (rawHeaders response);
                      res_body := b |})
  | Reject e => Never
  | Never => Never
  end.

(** Lines 81-102: the body to write and the request as the handler leaves
    it.  A structured (or absent) body forces a [Content-Type] header. *)
Definition contentTypeHeader : IHttpHeader :=
  {| name := "Content-Type"; value := "application/json; charset=utf-8" |}.

Definition prepareBody (request : IHttpRequest) : option Body * IHttpRequest :=
  match body request with
  | Some (BodyBuffer b) => (Some (BodyBuffer b), request)
  | Some (BodyString s) => (Some (BodyString s), request)
  | other =>
      let written :=
        match other with
        | Some (BodyValue json) => Some (BodyString json)
        | _ => None
        end in
      let hs := default [] (headers request) in
      let hs :=
        match findIndex (fun h => String.eqb (name h) "Content-Type") hs with
        | Some headerIndex => <[headerIndex := contentTypeHeader]> hs
        | None => hs ++ [contentTypeHeader]
        end in
      (written, set_headers request hs)
  end.

(** The [secureConnect] listener of lines 186-204: [Some err] when the socket
    is destroyed. *)
Definition onSecureConnect (validateServerCert : ServerCertValidator)
    (host : option string) (socket : TlsHandshake) : option JsError :=
  if authorized socket then None
  else
    match peerCertificate socket with
    | None => None
    | Some peerCert =>
        if validateServerCert host (toCertificateInfo peerCert) then None
        else Some (authorizationError socket)
    end.

(** [if (x) ...] on an optional string: absent and empty are both falsy. *)
Definition truthy (x : option string) : option string :=
  match x with
  | Some "" => None
  | other => other
  end.

(** [options.protocol === pr] *)
Definition protocolIs (o : RequestOptions) (pr : string) : bool :=
  match protocol o with
  | Some x => String.eqb x pr
  | None => false
  end.

Section NodeTransport.
Context {W : Type}.

(** Node's [url.parse]: the [protocol] and [host] of a URL ([None] for
    [null]). *)
Variable url_protocol : string -> option string.
Variable url_host : string -> option string.

(** The network behind [http.request]/[https.request]: a synchronous throw
    of [https.request], the handshake the socket reports, and the
    ["response"] or ["error"] event that ends the exchange. *)
Variable https_throws : RequestOptions -> option JsError.
Variable handshake : RequestOptions -> W -> TlsHandshake.
Variable exchange : RequestOptions -> option Body -> W -> Settle IncomingMessage * W.

Definition initialOptions (request : IHttpRequest) : RequestOptions :=
  {| href := url request; protocol := url_protocol (url request);
     opt_method := None; opt_headers := None; secureProtocol := None;
     rejectUnauthorized := None; opt_cert := None; opt_key := None;
     passphrase := None; opt_pfx := None |}.

Definition withMethodAndHeaders (request : IHttpRequest) (o : RequestOptions)
    : RequestOptions :=
  {| href := href o; protocol := protocol o;
     opt_method := Some (method request);
     opt_headers := applyHeaders ∅ <$> headers request;
     secureProtocol := secureProtocol o; rejectUnauthorized := rejectUnauthorized o;
     opt_cert := opt_cert o; opt_key := opt_key o;
     passphrase := passphrase o; opt_pfx := opt_pfx o |}.

(** Lines 116-151; [inl] is the [reject] of an unrecognised client
    certificate. *)
Definition secureOptions (validateServerCert : option ServerCertValidator)
    (request : IHttpRequest) (o : RequestOptions) : JsError + RequestOptions :=
  let sp := match sslVersion request with Some v => Some v | None => secureProtocol o end in
  let ru := match validateServerCert with Some _ => Some false | None => rejectUnauthorized o end in
  let base c k pw pf :=
    {| href := href o; protocol := protocol o; opt_method := opt_method o;
       opt_headers := opt_headers o; secureProtocol := sp; rejectUnauthorized := ru;
       opt_cert := c; opt_key := k; passphrase := pw; opt_pfx := pf |} in
  match clientCert request with
  | None => inr (base None None None None)
  | Some (PemCertificate cert key password) =>
      inr (base (Some cert) (truthy key) (truthy password) None)
  | Some (PfxCertificate pfx password) =>
      inr (base None None (truthy password) (Some pfx))
  | Some (UnknownCertificate type) => inl (Error ("Invalid clientCert.type: " +:+ type))
  end.

(** Lines 157-160: the options without any client certificate. *)
Definition withoutClientCert (o : RequestOptions) : RequestOptions :=
  {| href := href o; protocol := protocol o; opt_method := opt_method o;
     opt_headers := opt_headers o; secureProtocol := secureProtocol o;
     rejectUnauthorized := rejectUnauthorized o;
     opt_cert := None; opt_key := None; passphrase := None; opt_pfx := None |}.

(** Lines 174-212 for a request object that was created: the listeners, the
    body written, [end()]. *)
Definition send (validateServerCert : option ServerCertValidator)
    (request : IHttpRequest) (o : RequestOptions) (b : option Body) (w : W)
    : Settle (option IHttpResponse) * W :=
  let destroyed :=
    match validateServerCert with
    | Some validate =>
        if protocolIs o "https:"
        then onSecureConnect validate (url_host (url request)) (handshake o w)
        else None
    | None => None
    end in
  (* [if (body) httpRequest.write(body)]: an empty string is not written *)
  let b := match b with Some (BodyString "") => None | _ => b end in
  match destroyed with
  | Some err => (Reject err, w)
  | None =>
      let '(r, w') := exchange o b w in
      match r with
      | Fulfil response => (onResponse response, w')
      | Reject error => (Reject error, w')
      | Never => (Never, w')
      end
  end.

(** [handleRequestAsync]: the settlement of the promise whose executor is
    lines 77-212.  In the last branch the executor returns before it has
    called [resolve] or [reject] and before any listener exists. *)
Definition handleRequestAsync (validateServerCert : option ServerCertValidator)
    (pipeline : HttpPipeline) (request : IHttpRequest) (w : W)
    : Settle (option IHttpResponse) * IHttpRequest * W :=
  let options := initialOptions request in
  let '(b, request) := prepareBody request in
  let options := withMethodAndHeaders request options in
  if protocolIs options "http:" then
    let '(r, w') := send validateServerCert request options b w in (r, request, w')
  else if protocolIs options "https:" then
    match secureOptions validateServerCert request options with
    | inl err => (Reject err, request, w)
    | inr options =>
        match https_throws options with
        | None =>
            let '(r, w') := send validateServerCert request options b w in
            (r, request, w')
        | Some err =>
            if match err with
               | Error m | TypeError m => String.eqb m "mac verify failure"
               end
            then
              let options := withoutClientCert options in
              match https_throws options with
              | None =>
                  let '(r, w') := send validateServerCert request options b w in
                  (r, request, w')
              | Some err' => (Reject err', request, w)
              end
            else (Reject err, request, w)
        end
    end
  else (Never, request, w).

(** [createRequestHandler] *)
Definition createRequestHandler (serverCertValidator : option ServerCertValidator)
    : HttpRequestHandler W :=
  handleRequestAsync serverCertValidator.
End NodeTransport.

(** ** The per-site authentication response handler
       ([acquireTokenAsync], [createResponseHandler]) *)

(** A value of [siteMap]: a pending token promise (by its identity), or one
    of the two strings. *)
Inductive SiteRecord :=
| RecordPromise (p : nat)
| RecordRetry
| RecordNotSupported.

Inductive PromiseState :=
| Pending
| Fulfilled (v : option IHttpResponse)
| Rejected (e : JsError).

(** A promise made by line 82, with the [siteId] its [then] callback
    (line 84) has captured. *)
Record TokenPromise := {
  tp_siteId : string;
  tp_state : PromiseState
}.

(** The closure state of [createResponseHandler]: [siteMap] and the token
    promises made so far; a promise is known by its index. *)
Record Coordinator := {
  siteMap : gmap string SiteRecord;
  tokenPromises : list TokenPromise
}.

(** [createResponseHandler()]: a handler with an empty [siteMap]. *)
Definition createResponseHandler : Coordinator :=
  {| siteMap := ∅; tokenPromises := [] |}.

(** What the handler returns (lines 63, 72, 75, 78, 86). *)
Inductive HandlerReturn :=
| ReturnUndefined
| ReturnThenRetry (p : nat)
| ReturnRetry
| ReturnTokenPromise (p : nat).

(** What the returned value comes to for the pipeline that awaits it. *)
Inductive Outcome :=
| Waiting
| RetryOriginal
| KeepResponse
| ReplaceWith (r : IHttpResponse)
| Fails (e : JsError).

(** The options handed to the login flow. *)
Record AadOptions := {
  aad_authority : string;
  redirectUri : string;
  clientId : string
}.

Definition hasAuthorization (hs : list IHttpHeader) : bool :=
  match find (fun header => String.eqb (name header) "Authorization") hs with
  | Some _ => true
  | None => false
  end.

(** A property key: [null] reads as the key ["null"]. *)
Definition propertyKey (k : option string) : string := default "null" k.

Definition undefinedFind : JsError :=
  TypeError "Cannot read property 'find' of undefined".

Section Coordinator.
(** Node's [url.parse(u).host] and [url.resolve]. *)
Variable url_host : string -> option string.
Variable url_resolve : string -> string -> string.

(** Lines 82-86: a new token promise is made, stored under the site and
    returned. *)
Definition startAttempt (siteId : string) (c : Coordinator)
    : HandlerReturn * Coordinator :=
  let p := List.length (tokenPromises c) in
  (ReturnTokenPromise p,
   {| siteMap := <[siteId := RecordPromise p]> (siteMap c);
      tokenPromises := tokenPromises c ++ [{| tp_siteId := siteId; tp_state := Pending |}] |}).

(** The handler, up to its [return]; [inl] is an exception thrown. *)
Definition handleResponse (request : IHttpRequest) (response : IHttpResponse)
    (c : Coordinator) : (JsError + HandlerReturn) * Coordinator :=
  if bool_decide (statusCode response ≠ 401) && bool_decide (statusCode response ≠ 403)
  then (inr ReturnUndefined, c)
  else
    let siteId := propertyKey (url_host (url request)) in
    match headers request with
    | None => (inl undefinedFind, c)
    | Some hs =>
        let fallThrough :=
          let '(ret, c') := startAttempt siteId c in (inr ret, c') in
        if negb (hasAuthorization hs) then
          match siteMap c !! siteId with
          | Some (RecordPromise p) => (inr (ReturnThenRetry p), c)
          | Some RecordRetry => (inr ReturnRetry, c)
          | Some RecordNotSupported => (inr ReturnUndefined, c)
          | None => fallThrough
          end
        else fallThrough
    end.

(** Token promise [p] settles with [o].  A fulfilment runs the callback of
    line 84; nothing is registered for a rejection. *)
Definition settle (p : nat) (o : PromiseState) (c : Coordinator) : Coordinator :=
  match tokenPromises c !! p with
  | Some tp =>
      match tp_state tp, o with
      | Pending, Fulfilled response =>
          {| siteMap :=
               <[tp_siteId tp :=
                   match response with
                   | Some _ => RecordRetry
                   | None => RecordNotSupported
                   end]> (siteMap c);
             tokenPromises :=
               <[p := {| tp_siteId := tp_siteId tp; tp_state := o |}]> (tokenPromises c) |}
      | Pending, Rejected e =>
          {| siteMap := siteMap c;
             tokenPromises :=
               <[p := {| tp_siteId := tp_siteId tp; tp_state := o |}]> (tokenPromises c) |}
      | _, _ => c
      end
  | None => c
  end.

Definition promiseState (p : nat) (c : Coordinator) : PromiseState :=
  match tokenPromises c !! p with
  | Some tp => tp_state tp
  | None => Pending
  end.

(** How a returned value settles: [record.then(() => requestAsync(request))]
    runs its callback on fulfilment only and passes a rejection on. *)
Definition outcome (ret : HandlerReturn) (c : Coordinator) : Outcome :=
  match ret with
  | ReturnUndefined => KeepResponse
  | ReturnRetry => RetryOriginal
  | ReturnThenRetry p =>
      match promiseState p c with
      | Pending => Waiting
      | Fulfilled _ => RetryOriginal
      | Rejected e => Fails e
      end
  | ReturnTokenPromise p =>
      match promiseState p c with
      | Pending => Waiting
      | Fulfilled (Some r) => ReplaceWith r
      | Fulfilled None => KeepResponse
      | Rejected e => Fails e
      end
  end.

(** A run of the coordinator: handler calls and settlements, in the order
    the single thread performs them. *)
Inductive CoordinatorEvent :=
| HandlerCall (request : IHttpRequest) (response : IHttpResponse)
| PromiseSettles (p : nat) (o : PromiseState).

Fixpoint run (evs : list CoordinatorEvent) (c : Coordinator)
    : list (JsError + HandlerReturn) * Coordinator :=
  match evs with
  | [] => ([], c)
  | HandlerCall request response :: rest =>
      let '(r, c') := handleResponse request response c in
      let '(rs, c'') := run rest c' in
      (r :: rs, c'')
  | PromiseSettles p o :: rest => run rest (settle p o c)
  end.

(** The number of token promises made for a site. *)
Definition attemptsFor (siteId : string) (c : Coordinator) : nat :=
  List.length (filter (fun s => s = siteId) (tp_siteId <$> tokenPromises c)).

(** No site has more than one token promise, and a site without a record
    has none. *)
Definition AtMostOneAttempt (c : Coordinator) : Prop :=
  forall siteId,
    (attemptsFor siteId c <= 1)%nat /\
    (siteMap c !! siteId = None -> attemptsFor siteId c = 0%nat).

(** The handler calls for a list of (request, response) pairs. *)
Definition handlerCalls (calls : list (IHttpRequest * IHttpResponse))
    : list CoordinatorEvent :=
  map (fun call => HandlerCall call.1 call.2) calls.

(** An event that is not a handler call for a request with an
    [Authorization] header. *)
Definition withoutAuthorization (ev : CoordinatorEvent) : Prop :=
  match ev with
  | HandlerCall request _ =>
      forall hs, headers request = Some hs -> hasAuthorization hs = false
  | PromiseSettles _ _ => True
  end.

(** A 401/403 answer to a request for [siteId] that has a header list
    without [Authorization]. *)
Definition unauthenticatedChallenge (siteId : string)
    (call : IHttpRequest * IHttpResponse) : Prop :=
  (statusCode call.2 = 401 \/ statusCode call.2 = 403) /\
  propertyKey (url_host (url call.1)) = siteId /\
  exists hs, headers call.1 = Some hs /\ hasAuthorization hs = false.

Section AcquireToken.
Context {W : Type}.
(** [pipeline.requestAsync] and the login flow [handleAadAsync] of
    [./auth.aad], as the attempt sees them. *)
Variable pipeline_requestAsync : IHttpRequest -> W -> Settle IHttpResponse * W.
Variable handleAadAsync :
  AadOptions -> IHttpRequest -> IHttpResponse -> W -> Settle (option IHttpResponse) * W.

Definition metadataRequest (request : IHttpRequest) : IHttpRequest :=
  {| sslVersion := None; clientCert := None; method := GET;
     url := url_resolve (url request) "/$/GetAadMetadata?api-version=1.0";
     headers := None; body := None |}.

(** [acquireTokenAsync]: how the token promise settles. *)
Definition acquireTokenAsync (request : IHttpRequest) (response : IHttpResponse)
    (w : W) : Settle (option IHttpResponse) * W :=
  let '(r, w) := pipeline_requestAsync (metadataRequest request) w in
  match r with
  | Fulfil aadMetadataResponse =>
      if bool_decide (statusCode aadMetadataResponse ≠ 200) then (Fulfil None, w)
      else
        match data aadMetadataResponse with
        | None => (Reject (TypeError "Cannot read property 'type' of undefined"), w)
        | Some aadMetadata =>
            if negb (String.eqb (md_type aadMetadata) "aad") then (Fulfil None, w)
            else
              handleAadAsync
                {| aad_authority := authority (metadata aadMetadata);
                   redirectUri := url_resolve (url request) "/Explorer/index.html";
                   clientId := cluster (metadata aadMetadata) |}
                request response w
        end
  | Reject e => (Reject e, w)
  | Never => (Never, w)
  end.

Definition toPromiseState (r : Settle (option IHttpResponse)) : PromiseState :=
  match r with
  | Fulfil v => Fulfilled v
  | Reject e => Rejected e
  | Never => Pending
  end.
End AcquireToken.

(** The handler as the pipeline calls it.  The coordinator lives in the
    handlers' state [W]; [await] says how a returned promise settles while
    the caller is suspended. *)
Section AsResponseHandler.
Context {W : Type}.
Variable coordinator : W -> Coordinator.
Variable set_coordinator : Coordinator -> W -> W.
Variable await : HandlerReturn -> IHttpRequest -> W ->
                 Settle (option IHttpResponse) * IHttpRequest * W.

Definition responseHandler : HttpResponseHandler W :=
  fun pipeline request response w =>
    let '(r, c) := handleResponse request response (coordinator w) in
    let w := set_coordinator c w in
    match r with
    | inl e => (Reject e, request, w)
    | inr ReturnUndefined => (Fulfil None, request, w)
    | inr ret => await ret request w
    end.
End AsResponseHandler.
End Coordinator.

(** ** Vocabulary of the statements *)

Section Vocabulary.
Context {W : Type}.

(** [Declined p hs request w request' w']: called in order from [request]
    and [w], every handler of [hs] settles with no value, and the last one
    leaves [request'] and [w']. *)
Inductive Declined (p : HttpPipeline)
    : list (HttpRequestHandler W) -> IHttpRequest -> W -> IHttpRequest -> W -> Prop :=
| Declined_nil request w : Declined p [] request w request w
| Declined_cons h rest request w request1 w1 request' w' :
    h p request w = (Fulfil None, request1, w1) ->
    Declined p rest request1 w1 request' w' ->
    Declined p (h :: rest) request w request' w'.

(** The request handlers a trace shows as called, and the response
    handlers. *)
Definition requestHandlerCalls (tr : list Event) : list nat :=
  omap (fun ev => match ev with EvRequestHandler i => Some i | _ => None end) tr.

Definition responseHandlerCalls (tr : list Event) : list nat :=
  omap (fun ev => match ev with EvResponseHandler i => Some i | _ => None end) tr.

Definition logMessages (tr : list Event) : list string :=
  omap (fun ev => match ev with EvLogInfo m => Some m | _ => None end) tr.

(** The handler chains of a pipeline in a state. *)
Definition requestChain (p : HttpPipeline) (s : PState W) : list (HttpRequestHandler W) :=
  array_read (_requestHandlers p) (requestArrays s).

Definition responseChain (p : HttpPipeline) (s : PState W) : list (HttpResponseHandler W) :=
  array_read (_responseHandlers p) (responseArrays s).

(** The state after the events [evs] were recorded and the handlers left
    [w]. *)
Definition extend (evs : list Event) (w : W) (s : PState W) : PState W :=
  {| trace := trace s ++ evs; requestArrays := requestArrays s;
     responseArrays := responseArrays s; world := w |}.

Definition emptyState (w : W) : PState W :=
  {| trace := []; requestArrays := ∅; responseArrays := ∅; world := w |}.
End Vocabulary.

(** ** Sample data used by the examples *)

(** [url.parse] on URLs of the shape [scheme://host/path]. *)
Definition sampleProtocol (u : string) : option string :=
  match String.index 0 "://" u with
  | Some i => Some (String.substring 0 (S i) u)
  | None => None
  end.

Definition sampleHost (u : string) : option string :=
  match String.index 0 "://" u with
  | Some i =>
      let rest := String.substring (i + 3) (String.length u - (i + 3)) u in
      match String.index 0 "/" rest with
      | Some j => Some (String.substring 0 j rest)
      | None => Some rest
      end
  | None => None
  end.

(** [url.resolve(base, path)] for an absolute [path] on such URLs. *)
Definition sampleResolve (base path : string) : string :=
  default "" (sampleProtocol base) +:+ "//" +:+ default "" (sampleHost base) +:+ path.

Definition sampleRequest (m : HttpMethod) (u : string)
    (hs : option (list IHttpHeader)) : IHttpRequest :=
  {| sslVersion := None; clientCert := None; method := m; url := u;
     headers := hs; body := None |}.

Definition sampleResponse (code : Z) (message : string) : IHttpResponse :=
  {| httpVersion := "1.1"; statusCode := code; statusMessage := message;
     data := None; res_headers := []; res_body := [] |}.

Definition headerA : IHttpHeader := {| name := "Accept"; value := "text/plain" |}.
Definition headerB : IHttpHeader := {| name := "X-Request"; value := "1" |}.
Definition bearer : IHttpHeader := {| name := "Authorization"; value := "Bearer t" |}.

(** A request handler that answers every request with [response]. *)
Definition answering {W : Type} (response : IHttpResponse) : HttpRequestHandler W :=
  fun _ request w => (Fulfil (Some response), request, w).

(** A request handler that declines every request. *)
Definition declining {W : Type} : HttpRequestHandler W :=
  fun _ request w => (Fulfil None, request, w).

(** ** Further vocabulary: response handlers, header lists *)

Section ResponseVocabulary.
Context {W : Type}.

(** [Kept p hs request response w request' w']: called in order from
    [request] and [w] with [response], every response handler of [hs] settles
    with no value, and the last one leaves [request'] and [w']. *)
Inductive Kept (p : HttpPipeline)
    : list (HttpResponseHandler W) -> IHttpRequest -> IHttpResponse -> W ->
      IHttpRequest -> W -> Prop :=
| Kept_nil request response w : Kept p [] request response w request w
| Kept_cons h rest request response w request1 w1 request' w' :
    h p request response w = (Fulfil None, request1, w1) ->
    Kept p rest request1 response w1 request' w' ->
    Kept p (h :: rest) request response w request' w'.

(** A response handler that returns no value, and one that replaces the
    response. *)
Definition keeping : HttpResponseHandler W :=
  fun _ request _ w => (Fulfil None, request, w).

Definition replacing (response : IHttpResponse) : HttpResponseHandler W :=
  fun _ request _ w => (Fulfil (Some response), request, w).

(** A request handler that throws. *)
Definition throwing (e : JsError) : HttpRequestHandler W :=
  fun _ request w => (Reject e, request, w).
End ResponseVocabulary.

(** The raw header list of the wire for a header sequence: name, value,
    name, value, ... *)
Definition rawHeadersOf (hs : list IHttpHeader) : list string :=
  flat_map (fun h => [name h; value h]) hs.

(** The values an outgoing header entry carries. *)
Definition headerValues (o : option OutgoingHeader) : list string :=
  match o with
  | None => []
  | Some (Single v) => [v]
  | Some (Multi vs) => vs
  end.

(** The test of line 91: [value.name === "Content-Type"]. *)
Definition isContentType (h : IHttpHeader) : bool :=
  String.eqb (name h) "Content-Type".

(** ** The dependency-injection container ([DiDescriptorDictionary],
       [DiContainer]) *)

Definition nameError : JsError := Error "name should not be null/undefined/empty.".

(** [IDiDescriptorDictionary]: the interface a container stores its
    descriptors through. *)
Class IDiDescriptorDictionary (D Dict : Type) := {
  dict_get : string -> Dict -> JsError + option D;
  dict_set : string -> option D -> Dict -> JsError + Dict
}.

(** [DiContainer]: the object holds its dictionary. *)
Record DiContainer (Dict : Type) := { descriptorDictionary : Dict }.
Arguments descriptorDictionary {Dict} _.

Section Di.
(** [D]: descriptors; [A]: the extra arguments; [V]: what a descriptor
    returns. *)
Context {D A V : Type}.

(** [utils.string.isEmptyOrWhitespace], of the [utils] module. *)
Variable isEmptyOrWhitespace : string -> bool.

(** [DiDescriptorDictionary.get] *)
Definition dictionary_get (name : string) (d : gmap string D) : JsError + option D :=
  if isEmptyOrWhitespace name then inl nameError
  else inr (d !! name).

(** [DiDescriptorDictionary.set]: an undefined descriptor deletes the
    entry. *)
Definition dictionary_set (name : string) (descriptor : option D)
    (d : gmap string D) : JsError + gmap string D :=
  if isEmptyOrWhitespace name then inl nameError
  else
    match descriptor with
    | None => inr (delete name d)
    | Some x => inr (<[name := x]> d)
    end.

#[export] Instance DiDescriptorDictionary : IDiDescriptorDictionary D (gmap string D) :=
  {| dict_get := dictionary_get; dict_set := dictionary_set |}.

(** [new DiContainer()]: the default dictionary is a new, empty
    [DiDescriptorDictionary]. *)
Definition newDiContainer : DiContainer (gmap string D) :=
  {| descriptorDictionary := ∅ |}.

Section Container.
Context {Dict : Type} `{!IDiDescriptorDictionary D Dict}.

(** A descriptor called with the container and the extra arguments: what it
    returns and the container as it leaves it. *)
Variable call : D -> DiContainer Dict -> list A -> V * DiContainer Dict.

(** [DiContainer.get] *)
Definition container_get (name : string) (c : DiContainer Dict) : JsError + option D :=
  if isEmptyOrWhitespace name then inl nameError
  else dict_get name (descriptorDictionary c).

(** [DiContainer.set]; returns [this]. *)
Definition container_set (name : string) (descriptor : option D)
    (c : DiContainer Dict) : JsError + DiContainer Dict :=
  if isEmptyOrWhitespace name then inl nameError
  else
    match dict_set name descriptor (descriptorDictionary c) with
    | inl e => inl e
    | inr d => inr {| descriptorDictionary := d |}
    end.

(** [DiContainer.getDep]: [None] is [undefined]. *)
Definition getDep (name : string) (extraArgs : list A) (c : DiContainer Dict)
    : JsError + (option V * DiContainer Dict) :=
  match container_get name c with
  | inl e => inl e
  | inr None => inr (None, c)
  | inr (Some descriptor) =>
      let '(v, c') := call descriptor c extraArgs in inr (Some v, c')
  end.
End Container.
End Di.

(** A name made of blanks only, the empty name included. *)
Definition sampleIsBlank (s : string) : bool :=
  forallb (fun ch => Ascii.eqb ch " ") (list_ascii_of_string s).

(** ** The log's logger list ([Log.addLoggerAsync], [Log.removeLoggerAsync]) *)

(** The value passed as [name]: a string, or anything else. *)
Inductive JsName :=
| NameString (s : string)
| NameOther.

(** [name === s] for a string [s]. *)
Definition strictEquals (n : JsName) (s : string) : bool :=
  match n with
  | NameString x => String.eqb x s
  | NameOther => false
  end.

Section Loggers.
(** [L]: the logger objects, with their [name] property. *)
Context {L : Type}.
Variable logger_name : L -> string.

(** [utils.isString] and [utils.isObject], of the [utils] module. *)
Variable isString : JsName -> bool.
Variable isObject : L -> bool.

(** The loop of lines 355-361 with the [splice]: the logger removed (if any)
    and the loggers left. *)
Fixpoint removeFirstNamed (name : JsName) (loggers : list L) : option L * list L :=
  match loggers with
  | [] => (None, [])
  | logger :: rest =>
      if strictEquals name (logger_name logger) then (Some logger, rest)
      else
        let '(removed, rest') := removeFirstNamed name rest in
        (removed, logger :: rest')
  end.

(** [Log.removeLoggerAsync] *)
Definition removeLoggerAsync (name : JsName) (loggers : list L)
    : JsError + (option L * list L) :=
  if negb (isString name) then inl (Error "name must be supplied.")
  else inr (removeFirstNamed name loggers).

(** [Log.addLoggerAsync]; [None] is a missing logger. *)
Definition addLoggerAsync (logger : option L) (loggers : list L) : JsError + list L :=
  match logger with
  | None => inl (Error "logger must be provided.")
  | Some l =>
      if negb (isObject l) then inl (Error "logger must be an object implementing ILogger.")
      else inr (loggers ++ [l])
  end.
End Loggers.

Definition sampleIsString (n : JsName) : bool :=
  match n with
  | NameString _ => true
  | NameOther => false
  end.

(** * Properties *)

(** ** Template merge *)

(** What lines 49-57 build: the template's headers, and once more when the
    request has a header list of its own. *)
Lemma mergedHeaders_eq (template request : IHttpRequest) :
  mergedHeaders template request =
  default [] (headers template) ++
  match headers request with
  | Some _ => default [] (headers template)
  | None => []
  end.
Proof.
  unfold mergedHeaders.
  destruct (headers template) as [th|], (headers request) as [rh|]; simpl;
    rewrite ?app_nil_r; reflexivity.
Qed.

(** The request's own headers never reach the effective request. *)
Lemma mergedHeaders_ignores_request_headers (template request : IHttpRequest)
    (h1 h2 : list IHttpHeader) :
  mergedHeaders template (set_headers request h1) =
  mergedHeaders template (set_headers request h2).
Proof. reflexivity. Qed.

(** Without a header list on the request the merge is the intended one. *)
Lemma mergedHeaders_intended_without_request_headers (template request : IHttpRequest) :
  headers request = None ->
  mergedHeaders template request = intendedHeaders template request.
Proof.
  intros Hnone. rewrite mergedHeaders_eq. unfold intendedHeaders.
  rewrite Hnone. reflexivity.
Qed.

(** Every field but [headers] is the request's own when present, the
    template's otherwise. *)
Lemma effectiveRequest_other_fields (template request : IHttpRequest) :
  let e := effectiveRequest (Some template) request in
  method e = method request /\
  url e = url request /\
  sslVersion e = from_option Some (sslVersion template) (sslVersion request) /\
  clientCert e = from_option Some (clientCert template) (clientCert request) /\
  body e = from_option Some (body template) (body request).
Proof.
  simpl. repeat split.
Qed.

Lemma effectiveRequest_headers (template request : IHttpRequest) :
  headers (effectiveRequest (Some template) request) =
  Some (mergedHeaders template request).
Proof. reflexivity. Qed.

Lemma effectiveRequest_no_template (request : IHttpRequest) :
  effectiveRequest None request = request.
Proof. reflexivity. Qed.

(** C1.  With the template [{headers: [Accept]}] and the request
    [{headers: [X-Request]}] the effective request carries the template's
    header twice and the request's header not at all, where template headers
    followed by the request's own headers are asked for; the other fields are
    merged request-over-template. *)
Theorem requestAsync_template_headers_self_append :
  let template := sampleRequest GET "http://example.com/" (Some [headerA]) in
  let request := sampleRequest GET "http://example.com/a" (Some [headerB]) in
  headers (effectiveRequest (Some template) request) = Some [headerA; headerA] /\
  intendedHeaders template request = [headerA; headerB] /\
  headers (effectiveRequest (Some template) request)
    <> Some (intendedHeaders template request).
Proof.
  simpl. split; [reflexivity | split; [reflexivity |]].
  unfold intendedHeaders; simpl. intros Heq. discriminate Heq.
Qed.

(** ** The two handler loops *)

Section PipelineProperties.
Context {W : Type}.
Implicit Types (p : HttpPipeline) (s : PState W) (request : IHttpRequest).

Lemma extend_nil s : extend [] (world s) s = s.
Proof. destruct s; unfold extend; simpl. rewrite app_nil_r. reflexivity. Qed.

Lemma extend_extend evs1 evs2 (w1 w2 : W) s :
  extend evs2 w2 (extend evs1 w1 s) = extend (evs1 ++ evs2) w2 s.
Proof. unfold extend; simpl. rewrite app_assoc. reflexivity. Qed.

Lemma record_event_extend ev (w : W) s : record_event ev w s = extend [ev] w s.
Proof. reflexivity. Qed.

Lemma requestHandlerCalls_app (t1 t2 : list Event) :
  requestHandlerCalls (t1 ++ t2) = requestHandlerCalls t1 ++ requestHandlerCalls t2.
Proof. apply omap_app. Qed.

Lemma responseHandlerCalls_app (t1 t2 : list Event) :
  responseHandlerCalls (t1 ++ t2) = responseHandlerCalls t1 ++ responseHandlerCalls t2.
Proof. apply omap_app. Qed.

Lemma logMessages_app (t1 t2 : list Event) :
  logMessages (t1 ++ t2) = logMessages t1 ++ logMessages t2.
Proof. apply omap_app. Qed.

Lemma requestHandlerCalls_requests (l : list nat) :
  requestHandlerCalls (map EvRequestHandler l) = l.
Proof. induction l as [|i l IH]; simpl; [reflexivity | f_equal; exact IH]. Qed.

Lemma responseHandlerCalls_requests (l : list nat) :
  responseHandlerCalls (map EvRequestHandler l) = [].
Proof. induction l as [|i l IH]; simpl; [reflexivity | exact IH]. Qed.

Lemma logMessages_requests (l : list nat) :
  logMessages (map EvRequestHandler l) = [].
Proof. induction l as [|i l IH]; simpl; [reflexivity | exact IH]. Qed.

(** When every handler of the chain declines, the first loop calls each of
    them once, in order, and leaves [response] undefined. *)
Lemma dispatchRequest_declined p hs request (w : W) request' w' :
  Declined p hs request w request' w' ->
  forall i s, world s = w ->
  dispatchRequest p hs i request s =
  (Fulfil None, request',
   extend (map EvRequestHandler (seq i (List.length hs))) w' s).
Proof.
  induction 1 as [request w | h rest request w request1 w1 request' w' Hh _ IH];
    intros i s Hw.
  - simpl. rewrite <- Hw, extend_nil. reflexivity.
  - simpl. rewrite Hw, Hh.
    rewrite (IH (S i) (record_event (EvRequestHandler i) w1 s) eq_refl).
    rewrite record_event_extend, extend_extend. reflexivity.
Qed.

(** The first loop stops at the first handler that returns a response: the
    handlers behind it have no part in the result. *)
Lemma dispatchRequest_first_responder p
    (before : list (HttpRequestHandler W)) (h : HttpRequestHandler W)
    (after : list (HttpRequestHandler W)) request (w : W)
    request1 w1 response request2 w2 :
  Declined p before request w request1 w1 ->
  h p request1 w1 = (Fulfil (Some response), request2, w2) ->
  forall i s, world s = w ->
  dispatchRequest p (before ++ h :: after) i request s =
  (Fulfil (Some response), request2,
   extend (map EvRequestHandler (seq i (S (List.length before)))) w2 s).
Proof.
  induction 1 as [request w | h0 rest request w requestm wm request1 w1 Hh0 _ IH];
    intros Hh i s Hw.
  - simpl. rewrite Hw, Hh. reflexivity.
  - simpl. rewrite Hw, Hh0.
    rewrite (IH Hh (S i) (record_event (EvRequestHandler i) wm s) eq_refl).
    rewrite record_event_extend, extend_extend. reflexivity.
Qed.

(** The second loop records response-handler calls only, and writes to
    neither array store. *)
Lemma processResponse_frame p (hs : list (HttpResponseHandler W)) :
  forall i request response s,
  let s' := (processResponse p hs i request response s).2 in
  requestArrays s' = requestArrays s /\
  responseArrays s' = responseArrays s /\
  requestHandlerCalls (trace s') = requestHandlerCalls (trace s) /\
  logMessages (trace s') = logMessages (trace s).
Proof.
  induction hs as [|h rest IH]; intros i request response s; simpl.
  - repeat split.
  - destruct (h p request response (world s)) as [[r request'] w'] eqn:Hh.
    destruct r as [o | e |]; simpl.
    + specialize (IH (S i) request' (default response o)
                     (record_event (EvResponseHandler i) w' s)).
      simpl in IH. destruct IH as (Hq & Hr & Ht & Hl).
      rewrite Hq, Hr, Ht, Hl.
      rewrite requestHandlerCalls_app, logMessages_app; simpl.
      rewrite !app_nil_r. repeat split.
    + rewrite requestHandlerCalls_app, logMessages_app; simpl.
      rewrite !app_nil_r. repeat split.
    + rewrite requestHandlerCalls_app, logMessages_app; simpl.
      rewrite !app_nil_r. repeat split.
Qed.

Lemma dispatchRequest_frame p (hs : list (HttpRequestHandler W)) :
  forall i request s,
  let s' := (dispatchRequest p hs i request s).2 in
  requestArrays s' = requestArrays s /\ responseArrays s' = responseArrays s.
Proof.
  induction hs as [|h rest IH]; intros i request s; simpl.
  - split; reflexivity.
  - destruct (h p request (world s)) as [[r request'] w'] eqn:Hh.
    destruct r as [[response|] | e |]; simpl; try (split; reflexivity).
    specialize (IH (S i) request' (record_event (EvRequestHandler i) w' s)).
    simpl in IH. exact IH.
Qed.

(** [requestAsync] writes to neither array store. *)
Lemma requestAsync_frame p request s :
  let s' := (requestAsync p request s).2 in
  requestArrays s' = requestArrays s /\ responseArrays s' = responseArrays s.
Proof.
  unfold requestAsync.
  set (e := effectiveRequest (requestTemplate p) request).
  set (s0 := writeInfoAsync (startMessage e) s).
  pose proof (dispatchRequest_frame p
    (array_read (_requestHandlers p) (requestArrays s0)) 0%nat e s0) as Hd.
  destruct (dispatchRequest p (array_read (_requestHandlers p) (requestArrays s0))
              0%nat e s0) as [[r request'] s1] eqn:Hrun.
  simpl in Hd. destruct Hd as [Hq Hr].
  destruct r as [[response|] | err |]; simpl; try (split; assumption).
  pose proof (processResponse_frame p
    (array_read (_responseHandlers p)
       (responseArrays (writeInfoAsync (doneMessage request' response) s1)))
    0%nat request' response (writeInfoAsync (doneMessage request' response) s1)) as Hp.
  simpl in Hp. destruct Hp as (Hq' & Hr' & _).
  split; [rewrite Hq' | rewrite Hr']; assumption.
Qed.
End PipelineProperties.

(** ** Dispatch *)

(** C5.  When every request handler of the chain returns no value, the call
    fails with the error "No request handler handled request."; every request
    handler was called exactly once (nothing is tried again), no response
    handler runs and the completion message is not logged. *)
Theorem requestAsync_no_handler_fails {W : Type} (p : HttpPipeline)
    (request : IHttpRequest) (s : PState W) (request' : IHttpRequest) (w' : W) :
  Declined p (requestChain p s)
    (effectiveRequest (requestTemplate p) request) (world s) request' w' ->
  let result := requestAsync p request s in
  result =
    (Reject noHandlerError, request',
     extend (EvLogInfo (startMessage (effectiveRequest (requestTemplate p) request))
               :: map EvRequestHandler (seq 0 (List.length (requestChain p s))))
            w' s) /\
  requestHandlerCalls (trace result.2) =
    requestHandlerCalls (trace s) ++ seq 0 (List.length (requestChain p s)) /\
  responseHandlerCalls (trace result.2) = responseHandlerCalls (trace s) /\
  logMessages (trace result.2) =
    logMessages (trace s) ++ [startMessage (effectiveRequest (requestTemplate p) request)].
Proof.
  intros Hdecl result.
  assert (Hres : result =
    (Reject noHandlerError, request',
     extend (EvLogInfo (startMessage (effectiveRequest (requestTemplate p) request))
               :: map EvRequestHandler (seq 0 (List.length (requestChain p s))))
            w' s)).
  { unfold result, requestAsync.
    set (e := effectiveRequest (requestTemplate p) request) in *.
    change (array_read (_requestHandlers p)
              (requestArrays (writeInfoAsync (startMessage e) s)))
      with (requestChain p s).
    rewrite (dispatchRequest_declined p _ _ _ _ _ Hdecl 0%nat
               (writeInfoAsync (startMessage e) s) eq_refl).
    unfold writeInfoAsync. rewrite record_event_extend, extend_extend.
    reflexivity. }
  split; [exact Hres |]. rewrite Hres. simpl.
  rewrite requestHandlerCalls_app, responseHandlerCalls_app, logMessages_app.
  simpl.
  rewrite requestHandlerCalls_requests, responseHandlerCalls_requests,
    logMessages_requests, !app_nil_r.
  repeat split.
Qed.

(** A chain of two declining handlers. *)
Lemma requestAsync_no_handler_fails_witness :
  let p := {| requestTemplate := None; _requestHandlers := 0; _responseHandlers := 0 |} in
  let s : PState unit :=
    {| trace := []; requestArrays := {[ 0%nat := [declining; declining] ]};
       responseArrays := {[ 0%nat := [] ]}; world := tt |} in
  let request := sampleRequest GET "http://example.com/a" None in
  let result := requestAsync p request s in
  result.1.1 = Reject noHandlerError /\
  requestHandlerCalls (trace result.2) = [0; 1]%nat /\
  responseHandlerCalls (trace result.2) = [].
Proof.
  intros p s request result.
  assert (Hdecl : Declined p (requestChain p s)
            (effectiveRequest (requestTemplate p) request) (world s) request tt).
  { change (requestChain p s) with [@declining unit; declining].
    eapply Declined_cons; [reflexivity |].
    eapply Declined_cons; [reflexivity |].
    apply Declined_nil. }
  destruct (requestAsync_no_handler_fails p request s request tt Hdecl)
    as (Hres & Hq & Hr & _).
  fold result in Hres, Hq, Hr.
  split; [rewrite Hres; reflexivity |].
  split; [exact Hq | exact Hr].
Defined.

(** With no request handler registered at all, [GET http://example.com/a]
    fails with the same error. *)
Lemma requestAsync_without_handlers :
  let '(p, s) := constructor None None (emptyState tt) in
  (requestAsync p (sampleRequest GET "http://example.com/a" None) s).1.1
  = Reject noHandlerError.
Proof. reflexivity. Qed.

(** A request handler that throws ends the loop, and the call, with its own
    error, not with the "no handler" error. *)
Lemma dispatchRequest_rejects {W : Type} (p : HttpPipeline)
    (before : list (HttpRequestHandler W)) (h : HttpRequestHandler W)
    (after : list (HttpRequestHandler W))
    request (w : W) request1 w1 e request2 w2 :
  Declined p before request w request1 w1 ->
  h p request1 w1 = (Reject e, request2, w2) ->
  forall i s, world s = w ->
  exists s', dispatchRequest p (before ++ h :: after) i request s
             = (Reject e, request2, s').
Proof.
  induction 1 as [request w | h0 rest request w requestm wm request1 w1 Hh0 _ IH];
    intros Hh i s Hw; simpl.
  - rewrite Hw, Hh. eexists; reflexivity.
  - rewrite Hw, Hh0. apply IH; [exact Hh | reflexivity].
Qed.

Lemma requestAsync_handler_error {W : Type} (p : HttpPipeline)
    (request : IHttpRequest) (s : PState W)
    (before : list (HttpRequestHandler W)) (h : HttpRequestHandler W)
    (after : list (HttpRequestHandler W)) request1 w1 e request2 w2 :
  requestChain p s = before ++ h :: after ->
  Declined p before (effectiveRequest (requestTemplate p) request) (world s) request1 w1 ->
  h p request1 w1 = (Reject e, request2, w2) ->
  (requestAsync p request s).1.1 = Reject e.
Proof.
  intros Hchain Hdecl Hh. unfold requestAsync.
  set (e0 := effectiveRequest (requestTemplate p) request) in *.
  change (array_read (_requestHandlers p)
            (requestArrays (writeInfoAsync (startMessage e0) s)))
    with (requestChain p s).
  rewrite Hchain.
  destruct (dispatchRequest_rejects p before h after e0 (world s) request1 w1 e
              request2 w2 Hdecl Hh 0%nat (writeInfoAsync (startMessage e0) s) eq_refl)
    as [s1 Hd].
  rewrite Hd. reflexivity.
Qed.

(** C6.  The request handlers are called in the order of the array; the
    call stops at the first one that returns a response: exactly the handlers
    up to and including it are called, each once, the handlers behind it are
    not called, and its response is the one the response handlers start
    from. *)
Theorem requestAsync_first_responder_wins {W : Type} (p : HttpPipeline)
    (request : IHttpRequest) (s : PState W)
    (before : list (HttpRequestHandler W)) (h : HttpRequestHandler W)
    (after : list (HttpRequestHandler W))
    (request1 : IHttpRequest) (w1 : W) (response : IHttpResponse)
    (request2 : IHttpRequest) (w2 : W) :
  requestChain p s = before ++ h :: after ->
  Declined p before (effectiveRequest (requestTemplate p) request) (world s)
    request1 w1 ->
  h p request1 w1 = (Fulfil (Some response), request2, w2) ->
  let result := requestAsync p request s in
  result =
    processResponse p (responseChain p s) 0%nat request2 response
      (extend (EvLogInfo (startMessage (effectiveRequest (requestTemplate p) request))
                 :: map EvRequestHandler (seq 0 (S (List.length before)))
                 ++ [EvLogInfo (doneMessage request2 response)])
              w2 s) /\
  requestHandlerCalls (trace result.2) =
    requestHandlerCalls (trace s) ++ seq 0 (S (List.length before)).
Proof.
  intros Hchain Hdecl Hh result.
  assert (Hres : result =
    processResponse p (responseChain p s) 0%nat request2 response
      (extend (EvLogInfo (startMessage (effectiveRequest (requestTemplate p) request))
                 :: map EvRequestHandler (seq 0 (S (List.length before)))
                 ++ [EvLogInfo (doneMessage request2 response)])
              w2 s)).
  { unfold result, requestAsync.
    set (e := effectiveRequest (requestTemplate p) request) in *.
    change (array_read (_requestHandlers p)
              (requestArrays (writeInfoAsync (startMessage e) s)))
      with (requestChain p s).
    rewrite Hchain.
    rewrite (dispatchRequest_first_responder p before h after e (world s)
               request1 w1 response request2 w2 Hdecl Hh 0%nat
               (writeInfoAsync (startMessage e) s) eq_refl).
    unfold writeInfoAsync. rewrite !record_event_extend, !extend_extend.
    reflexivity. }
  split; [exact Hres |]. rewrite Hres.
  destruct (processResponse_frame p (responseChain p s) 0%nat request2 response
    (extend (EvLogInfo (startMessage (effectiveRequest (requestTemplate p) request))
               :: map EvRequestHandler (seq 0 (S (List.length before)))
               ++ [EvLogInfo (doneMessage request2 response)])
            w2 s)) as (_ & _ & Ht & _).
  rewrite Ht. unfold extend. cbn [trace].
  rewrite requestHandlerCalls_app.
  change (EvLogInfo ?m :: ?l) with ([EvLogInfo m] ++ l).
  rewrite !requestHandlerCalls_app, requestHandlerCalls_requests.
  simpl. rewrite app_nil_r. reflexivity.
Qed.

(** A chain [declining; answering 200; answering 500]: handlers 0 and 1 are
    called, handler 2 is not, and the 200 response comes back. *)
Lemma requestAsync_first_responder_wins_witness :
  let p := {| requestTemplate := None; _requestHandlers := 0; _responseHandlers := 0 |} in
  let ok := sampleResponse 200 "OK" in
  let s : PState unit :=
    {| trace := [];
       requestArrays :=
         {[ 0%nat := [declining; answering ok; answering (sampleResponse 500 "Oops")] ]};
       responseArrays := {[ 0%nat := [] ]}; world := tt |} in
  let request := sampleRequest GET "http://example.com/a" None in
  let result := requestAsync p request s in
  result.1.1 = Fulfil ok /\
  requestHandlerCalls (trace result.2) = [0; 1]%nat.
Proof.
  intros p ok s request result.
  assert (Hdecl : Declined p [@declining unit]
            (effectiveRequest (requestTemplate p) request) (world s) request tt).
  { eapply Declined_cons; [reflexivity | apply Declined_nil]. }
  destruct (requestAsync_first_responder_wins p request s
              [declining] (answering ok) [answering (sampleResponse 500 "Oops")]
              request tt ok request tt eq_refl Hdecl eq_refl) as [Hres Hcalls].
  fold result in Hres, Hcalls.
  split; [rewrite Hres; reflexivity | exact Hcalls].
Defined.

(** Each response handler sees the response its predecessor left; one that
    returns no value leaves it unchanged. *)
Lemma processResponse_step {W : Type} (p : HttpPipeline)
    (h : HttpResponseHandler W) (rest : list (HttpResponseHandler W))
    (i : nat) (request : IHttpRequest) (response : IHttpResponse) (s : PState W)
    (o : option IHttpResponse) (request' : IHttpRequest) (w' : W) :
  h p request response (world s) = (Fulfil o, request', w') ->
  processResponse p (h :: rest) i request response s =
  processResponse p rest (S i) request' (default response o)
    (extend [EvResponseHandler i] w' s).
Proof. intros Hh. simpl. rewrite Hh. reflexivity. Qed.

(** ** The handler arrays *)

Section ArrayProperties.
Context {A : Type}.
Implicit Types (h : gmap nat (list A)) (l : nat).

Lemma array_new_fresh h : h !! (array_new h).1 = None.
Proof. unfold array_new; simpl. apply not_elem_of_dom, is_fresh. Qed.

Lemma array_read_new h : array_read (array_new h).1 (array_new h).2 = [].
Proof. unfold array_read, array_new; simpl. rewrite lookup_insert_eq. reflexivity. Qed.

Lemma array_read_new_other h l :
  array_read l (array_new h).2 = array_read l h.
Proof.
  unfold array_read. destruct (decide (l = (array_new h).1)) as [-> | Hne].
  - rewrite array_new_fresh. unfold array_new; simpl.
    rewrite lookup_insert_eq. reflexivity.
  - unfold array_new in *; simpl in *.
    rewrite lookup_insert_ne by (intros Heq; apply Hne; symmetry; exact Heq).
    reflexivity.
Qed.

Lemma array_read_push h l xs :
  is_Some (h !! l) -> array_read l (array_push l xs h) = array_read l h ++ xs.
Proof.
  intros [a Ha]. unfold array_read, array_push.
  rewrite lookup_alter_eq, Ha. reflexivity.
Qed.

Lemma array_read_push_other h l l' xs :
  l <> l' -> array_read l' (array_push l xs h) = array_read l' h.
Proof.
  intros Hne. unfold array_read, array_push.
  rewrite lookup_alter_ne by exact Hne. reflexivity.
Qed.

Lemma array_push_allocated h l l' xs :
  is_Some (h !! l') -> is_Some (array_push l xs h !! l').
Proof.
  intros Hl. unfold array_push. apply lookup_alter_is_Some. exact Hl.
Qed.

Lemma array_new_allocated h : is_Some ((array_new h).2 !! (array_new h).1).
Proof. unfold array_new; simpl. rewrite lookup_insert_eq. eauto. Qed.

(** The array a constructor fills: a fresh location holding a copy of the
    source's elements. *)
Lemma array_copy_read h (src : option nat) :
  let l := (array_new h).1 in
  let h1 := (array_new h).2 in
  let h2 := match src with
            | Some a => array_push l (array_read a h1) h1
            | None => h1
            end in
  array_read l h2 = from_option (fun a => array_read a h) [] src /\
  is_Some (h2 !! l) /\
  (forall a, is_Some (h !! a) -> array_read a h2 = array_read a h /\ a <> l).
Proof.
  intros l h1 h2. subst l h1 h2. destruct src as [a|]; cbn [from_option].
  - split; [| split].
    + rewrite array_read_push by apply array_new_allocated.
      rewrite array_read_new, array_read_new_other. reflexivity.
    + apply array_push_allocated, array_new_allocated.
    + intros b Hb.
      assert (Hne : (array_new h).1 <> b).
      { intros Heq. rewrite <- Heq, array_new_fresh in Hb. destruct Hb; discriminate. }
      split; [| congruence].
      rewrite array_read_push_other by exact Hne. apply array_read_new_other.
  - split; [| split].
    + apply array_read_new.
    + apply array_new_allocated.
    + intros b Hb. split; [apply array_read_new_other |].
      intros Heq. rewrite Heq, array_new_fresh in Hb. destruct Hb; discriminate.
Qed.
End ArrayProperties.

Lemma constructor_eq {W : Type} (rq rs : option nat) (s : PState W) :
  constructor rq rs s =
  ({| requestTemplate := None;
      _requestHandlers := (array_new (requestArrays s)).1;
      _responseHandlers := (array_new (responseArrays s)).1 |},
   {| trace := trace s;
      requestArrays :=
        match rq with
        | Some src =>
            array_push (array_new (requestArrays s)).1
              (array_read src (array_new (requestArrays s)).2)
              (array_new (requestArrays s)).2
        | None => (array_new (requestArrays s)).2
        end;
      responseArrays :=
        match rs with
        | Some src =>
            array_push (array_new (responseArrays s)).1
              (array_read src (array_new (responseArrays s)).2)
              (array_new (responseArrays s)).2
        | None => (array_new (responseArrays s)).2
        end;
      world := world s |}).
Proof. reflexivity. Qed.

(** C9, as the code has it.  The constructor fills two fresh arrays with
    copies of the arrays passed in, so later changes to the caller's arrays
    do not reach the pipeline; [requestAsync] changes neither chain; the
    accessors return the pipeline's own arrays, so a [push] on the value of
    an accessor extends the pipeline's chain. *)
Theorem handler_chains_change_only_through_accessors {W : Type}
    (rq rs : option nat) (s : PState W) :
  let p := (constructor rq rs s).1 in
  let s1 := (constructor rq rs s).2 in
  (requestChain p s1 = from_option (fun a => array_read a (requestArrays s)) [] rq /\
   responseChain p s1 = from_option (fun a => array_read a (responseArrays s)) [] rs) /\
  (forall a h, is_Some (requestArrays s !! a) ->
     requestChain p (caller_push_requestHandler a h s1) = requestChain p s1) /\
  (forall a h, is_Some (responseArrays s !! a) ->
     responseChain p (caller_push_responseHandler a h s1) = responseChain p s1) /\
  (forall (request : IHttpRequest) (s2 : PState W),
     requestChain p (requestAsync p request s2).2 = requestChain p s2 /\
     responseChain p (requestAsync p request s2).2 = responseChain p s2) /\
  (forall h,
     requestChain p (caller_push_requestHandler (requestHandlers p) h s1)
     = requestChain p s1 ++ [h]) /\
  (forall h,
     responseChain p (caller_push_responseHandler (responseHandlers p) h s1)
     = responseChain p s1 ++ [h]).
Proof.
  intros p s1. subst p s1. rewrite constructor_eq.
  unfold requestChain, responseChain, requestHandlers, responseHandlers,
    caller_push_requestHandler, caller_push_responseHandler.
  cbn [fst snd _requestHandlers _responseHandlers requestArrays responseArrays].
  destruct (array_copy_read (requestArrays s) rq) as (Hq1 & Hq2 & Hq3).
  destruct (array_copy_read (responseArrays s) rs) as (Hr1 & Hr2 & Hr3).
  cbv zeta in Hq1, Hq2, Hq3, Hr1, Hr2, Hr3.
  split; [split; assumption |].
  split.
  { intros a h Ha. destruct (Hq3 a Ha) as [_ Hne].
    apply array_read_push_other. exact Hne. }
  split.
  { intros a h Ha. destruct (Hr3 a Ha) as [_ Hne].
    apply array_read_push_other. exact Hne. }
  split.
  { intros request s2.
    destruct (requestAsync_frame
      {| requestTemplate := None;
         _requestHandlers := (array_new (requestArrays s)).1;
         _responseHandlers := (array_new (responseArrays s)).1 |} request s2)
      as [Hq Hr].
    cbv zeta in Hq, Hr. rewrite Hq, Hr. split; reflexivity. }
  split.
  { intros h. apply array_read_push. exact Hq2. }
  { intros h. apply array_read_push. exact Hr2. }
Qed.

(** C9, as stated, fails: on a pipeline built without handlers a caller
    pushes a handler onto the value of [requestHandlers]; the pipeline's chain
    has changed, and the request that failed before is now answered. *)
Lemma requestHandlers_accessor_is_writable :
  let p := (constructor None None (emptyState tt)).1 in
  let s := (constructor None None (emptyState tt)).2 in
  let ok := sampleResponse 200 "OK" in
  let s' := caller_push_requestHandler (requestHandlers p) (answering ok) s in
  let request := sampleRequest GET "http://example.com/a" None in
  List.length (requestChain p s) = 0%nat /\
  List.length (requestChain p s') = 1%nat /\
  (requestAsync p request s).1.1 = Reject noHandlerError /\
  (requestAsync p request s').1.1 = Fulfil ok.
Proof. repeat split. Qed.

(** ** The node transport handler *)

Lemma prepareBody_url (request : IHttpRequest) :
  url (prepareBody request).2 = url request.
Proof.
  unfold prepareBody. destruct (body request) as [[b | s | json] |]; reflexivity.
Qed.

Section NodeTransportProperties.
Context {W : Type}.
Variable url_protocol : string -> option string.
Variable url_host : string -> option string.
Variable https_throws : RequestOptions -> option JsError.
Variable handshake : RequestOptions -> W -> TlsHandshake.
Variable exchange : RequestOptions -> option Body -> W -> Settle IncomingMessage * W.

(** For a URL whose protocol is neither [http:] nor [https:] the promise
    the handler returns never settles: it is not fulfilled with no value. *)
Lemma handleRequestAsync_unsupported_protocol
    (validateServerCert : option ServerCertValidator) (pipeline : HttpPipeline)
    (request : IHttpRequest) (w : W) :
  url_protocol (url request) <> Some "http:" ->
  url_protocol (url request) <> Some "https:" ->
  handleRequestAsync url_protocol url_host https_throws handshake exchange
    validateServerCert pipeline request w
  = (Never, (prepareBody request).2, w).
Proof.
  intros Hhttp Hhttps. unfold handleRequestAsync.
  destruct (prepareBody request) as [b request'] eqn:Hprep.
  unfold protocolIs; cbn [protocol withMethodAndHeaders initialOptions].
  destruct (url_protocol (url request)) as [pr|]; [| reflexivity].
  destruct (String.eqb_spec pr "http:") as [-> | _]; [congruence |].
  destruct (String.eqb_spec pr "https:") as [-> | _]; [congruence |].
  reflexivity.
Qed.
End NodeTransportProperties.

(** C7.  For [GET ftp://example.com/a] the transport handler does not
    return "no value": its promise never settles, whatever the network does;
    a pipeline that has it in front of a handler that would answer calls it,
    never reaches the second handler, and never settles either. *)
Theorem handleRequestAsync_unsupported_scheme_never_settles {W : Type}
    (https_throws : RequestOptions -> option JsError)
    (handshake : RequestOptions -> W -> TlsHandshake)
    (exchange : RequestOptions -> option Body -> W -> Settle IncomingMessage * W)
    (validateServerCert : option ServerCertValidator) (w : W) :
  let transport :=
    createRequestHandler sampleProtocol sampleHost https_throws handshake exchange
      validateServerCert in
  let request := sampleRequest GET "ftp://example.com/a" None in
  let p := {| requestTemplate := None; _requestHandlers := 0; _responseHandlers := 0 |} in
  let s : PState W :=
    {| trace := [];
       requestArrays := {[ 0%nat := [transport; answering (sampleResponse 200 "OK")] ]};
       responseArrays := {[ 0%nat := [] ]}; world := w |} in
  (transport p request w).1.1 = Never /\
  (transport p request w).1.1 <> Fulfil None /\
  (requestAsync p request s).1.1 = Never /\
  requestHandlerCalls (trace (requestAsync p request s).2) = [0%nat].
Proof.
  intros transport request p s.
  assert (Hrun : transport p request w = (Never, (prepareBody request).2, w)).
  { unfold transport, createRequestHandler.
    apply handleRequestAsync_unsupported_protocol; simpl; intros Heq; discriminate Heq. }
  split; [rewrite Hrun; reflexivity |].
  split; [rewrite Hrun; simpl; intros Heq; discriminate Heq |].
  unfold requestAsync.
  change (array_read (_requestHandlers p)
            (requestArrays (writeInfoAsync
               (startMessage (effectiveRequest (requestTemplate p) request)) s)))
    with [transport; answering (sampleResponse 200 "OK")].
  cbn [dispatchRequest]. cbn [world writeInfoAsync record_event effectiveRequest requestTemplate p s].
  rewrite Hrun. split; reflexivity.
Qed.

(** ** The certificate-info extractor *)

Lemma string_app_cons (ch : ascii) (a b : string) :
  String ch a +:+ b = String ch (a +:+ b).
Proof. reflexivity. Qed.

Lemma string_app_nil_l (b : string) : "" +:+ b = b.
Proof. reflexivity. Qed.

Lemma string_app_assoc (a b c : string) : (a +:+ b) +:+ c = a +:+ (b +:+ c).
Proof.
  induction a as [|ch a IH]; rewrite ?string_app_nil_l, ?string_app_cons;
    [reflexivity | f_equal; exact IH].
Qed.

Lemma string_app_nil_r (a : string) : a +:+ "" = a.
Proof.
  induction a as [|ch a IH]; rewrite ?string_app_nil_l, ?string_app_cons;
    [reflexivity | f_equal; exact IH].
Qed.

Lemma string_length_app (a b : string) :
  String.length (a +:+ b) = (String.length a + String.length b)%nat.
Proof.
  induction a as [|ch a IH]; rewrite ?string_app_nil_l, ?string_app_cons;
    [reflexivity | simpl; f_equal; exact IH].
Qed.

Lemma substring_0_length_app (a b : string) :
  String.substring 0 (String.length a) (a +:+ b) = a.
Proof.
  induction a as [|ch a IH]; rewrite ?string_app_nil_l, ?string_app_cons.
  - destruct b; reflexivity.
  - simpl. f_equal. exact IH.
Qed.

(** Cutting the last two characters undoes a trailing [", "]. *)
Lemma cut_trailing_separator (a : string) :
  String.substring 0 (String.length (a +:+ ", ") - 2) (a +:+ ", ") = a.
Proof.
  rewrite string_length_app. simpl String.length.
  replace (String.length a + 2 - 2)%nat with (String.length a) by lia.
  apply substring_0_length_app.
Qed.

(** The string the loop of [objectToString] has built, from any start. *)
Lemma objectToString_loop (obj : list (string * string)) (acc : string) :
  fold_left (fun str '(propertyName, v) => str +:+ propertyName +:+ "=" +:+ v +:+ ", ")
            obj acc
  = acc +:+
    String.concat "" (map (fun '(k, v) => k +:+ "=" +:+ v +:+ ", ") obj).
Proof.
  revert acc. induction obj as [|[k v] rest IH]; intros acc.
  - cbn [fold_left map String.concat]. rewrite string_app_nil_r. reflexivity.
  - cbn [fold_left map]. rewrite IH.
    destruct rest as [|kv rest'].
    + cbn [map String.concat]. rewrite string_app_nil_r. reflexivity.
    + cbn [map String.concat]. rewrite string_app_nil_l, !string_app_assoc.
      reflexivity.
Qed.

Lemma flattened_with_separator (k v : string) (rest : list (string * string)) :
  String.concat "" (map (fun '(k, v) => k +:+ "=" +:+ v +:+ ", ") ((k, v) :: rest))
  = flattenedName ((k, v) :: rest) +:+ ", ".
Proof.
  revert k v. induction rest as [|[k' v'] rest IH]; intros k v.
  - unfold flattenedName. cbn [map String.concat].
    rewrite !string_app_assoc. reflexivity.
  - unfold flattenedName in *. cbn [map String.concat] in *.
    rewrite string_app_nil_l, IH, !string_app_assoc. reflexivity.
Qed.

(** [objectToString] is the [key=value] pairs joined by [", "]. *)
Lemma objectToString_flattened (obj : list (string * string)) :
  objectToString obj = flattenedName obj.
Proof.
  unfold objectToString. rewrite objectToString_loop.
  destruct obj as [|[k v] rest].
  - reflexivity.
  - rewrite flattened_with_separator, string_app_nil_l.
    apply cut_trailing_separator.
Qed.

Lemma hexDigit_isHexChar (n : Z) : 0 <= n < 16 -> isHexChar (SHA1.hexDigit n) = true.
Proof.
  intros Hn. unfold isHexChar, SHA1.hexDigit.
  destruct (lookup_lt_is_Some_2 SHA1.hexDigits (Z.to_nat n)) as [c Hc].
  { change (List.length SHA1.hexDigits) with 16%nat. lia. }
  rewrite Hc. apply bool_decide_eq_true_2.
  apply list_elem_of_lookup. exists (Z.to_nat n). exact Hc.
Qed.

Lemma hex_length (bs : list Z) :
  String.length (SHA1.hex bs) = (2 * List.length bs)%nat.
Proof.
  induction bs as [|b rest IH]; simpl; [reflexivity |]. rewrite IH. lia.
Qed.

Lemma hex_chars (bs : list Z) :
  Forall (fun b => 0 <= b < 256) bs ->
  Forall (fun c => isHexChar c = true) (list_ascii_of_string (SHA1.hex bs)).
Proof.
  induction 1 as [|b rest Hb _ IH]; simpl; [constructor |].
  constructor; [| constructor; [| exact IH]].
  - apply hexDigit_isHexChar.
    split; [apply Z.div_pos; lia | apply Z.div_lt_upper_bound; lia].
  - apply hexDigit_isHexChar. apply Z.mod_pos_bound. lia.
Qed.

Lemma be_bytes_length (n : nat) (x : Z) : List.length (SHA1.be_bytes n x) = n.
Proof. induction n as [|k IH]; simpl; [reflexivity | f_equal; exact IH]. Qed.

Lemma be_bytes_range (n : nat) (x : Z) :
  Forall (fun b => 0 <= b < 256) (SHA1.be_bytes n x).
Proof.
  induction n as [|k IH]; simpl; constructor; [| exact IH].
  apply Z.mod_pos_bound. lia.
Qed.

(** A SHA-1 digest is 20 bytes. *)
Lemma digest_bytes (msg : list byte) :
  List.length (SHA1.digest msg) = 20%nat /\
  Forall (fun b => 0 <= b < 256) (SHA1.digest msg).
Proof.
  unfold SHA1.digest.
  destruct (fold_left SHA1.compress _ SHA1.init) as [[[[h0 h1] h2] h3] h4].
  split.
  - rewrite !length_app, !be_bytes_length. reflexivity.
  - repeat (apply Forall_app; split); apply be_bytes_range.
Qed.

(** The hash on the standard test vectors. *)
Example sha1_abc :
  SHA1.digest_hex (list_byte_of_string "abc")
  = "a9993e364706816aba3e25717850c26c9cd0d89d".
Proof. vm_compute. reflexivity. Qed.

Example sha1_empty :
  SHA1.digest_hex [] = "da39a3ee5e6b4b0d3255bfef95601890afd80709".
Proof. vm_compute. reflexivity. Qed.

Example sha1_two_blocks :
  SHA1.digest_hex
    (list_byte_of_string "abcdbcdecdefdefgefghfghighijhijkijkljklmklmnlmnomnopnopq")
  = "84983e441c3bd26ebaae4aa1f95129e5e54670f1".
Proof. vm_compute. reflexivity. Qed.

(** C8.  [toCertificateInfo] is a function of the certificate alone; its
    [subjectName] and [issuerName] are the [key=value] pairs of the subject
    and the issuer joined by [", "]; its [thumbprint] is the hex-encoded SHA-1
    digest of the raw bytes, 40 characters among [0-9a-f]. *)
Theorem toCertificateInfo_spec (cert : PeerCertificate) :
  subjectName (toCertificateInfo cert) = flattenedName (subject cert) /\
  issuerName (toCertificateInfo cert) = flattenedName (issuer cert) /\
  thumbprint (toCertificateInfo cert) = SHA1.hex (SHA1.digest (raw cert)) /\
  String.length (thumbprint (toCertificateInfo cert)) = 40%nat /\
  Forall (fun c => isHexChar c = true)
    (list_ascii_of_string (thumbprint (toCertificateInfo cert))).
Proof.
  destruct (digest_bytes (raw cert)) as [Hlen Hrange].
  cbn [toCertificateInfo subjectName issuerName thumbprint].
  unfold SHA1.digest_hex.
  split; [apply objectToString_flattened |].
  split; [apply objectToString_flattened |].
  split; [reflexivity |].
  split; [rewrite hex_length, Hlen; reflexivity | apply hex_chars; exact Hrange].
Qed.

(** The certificate of the specification's example. *)
Example toCertificateInfo_example :
  let info :=
    toCertificateInfo
      {| subject := [("CN", "a")]; issuer := [("CN", "b")]; serialNumber := "01";
         valid_from := "Jan  1 00:00:00 2020 GMT"; valid_to := "Jan  1 00:00:00 2030 GMT";
         raw := list_byte_of_string "abc" |} in
  subjectName info = "CN=a" /\ issuerName info = "CN=b" /\
  ci_serialNumber info = "01" /\
  thumbprint info = "a9993e364706816aba3e25717850c26c9cd0d89d".
Proof. vm_compute. repeat split. Qed.

(** The raw header list of the specification's example. *)
Example generateHeaders_example :
  generateHeaders ["Content-Type"; "text/plain"; "X-Foo"; "1"; "X-Foo"; "2"]
  = [ {| name := "Content-Type"; value := "text/plain" |};
      {| name := "X-Foo"; value := "1" |}; {| name := "X-Foo"; value := "2" |} ].
Proof. reflexivity. Qed.

(** ** The per-site authentication response handler *)

Section CoordinatorProperties.
Variable url_host : string -> option string.
Implicit Types (c : Coordinator) (request : IHttpRequest) (response : IHttpResponse).

Lemma challenge_status response :
  statusCode response = 401 \/ statusCode response = 403 ->
  bool_decide (statusCode response ≠ 401) && bool_decide (statusCode response ≠ 403)
  = false.
Proof.
  intros [-> | ->].
  - reflexivity.
  - rewrite andb_false_r. reflexivity.
Qed.

(** Any other status: the handler returns no value and changes nothing. *)
Lemma handleResponse_other_status request response c :
  statusCode response <> 401 -> statusCode response <> 403 ->
  handleResponse url_host request response c = (inr ReturnUndefined, c).
Proof.
  intros H1 H3. unfold handleResponse.
  rewrite !bool_decide_eq_true_2 by assumption. reflexivity.
Qed.

(** C10.  On a 401 or 403 whose request has no [headers] property the
    handler throws the [TypeError] of [request.headers.find]; it does not
    return "no value", and the site map is left as it was. *)
Theorem handleResponse_without_headers_throws request response c :
  headers request = None ->
  statusCode response = 401 \/ statusCode response = 403 ->
  handleResponse url_host request response c = (inl undefinedFind, c).
Proof.
  intros Hnone Hstatus. unfold handleResponse.
  rewrite (challenge_status response Hstatus), Hnone. reflexivity.
Qed.

(** What a challenge does when the request has a header list. *)
Lemma handleResponse_challenge request response c hs :
  statusCode response = 401 \/ statusCode response = 403 ->
  headers request = Some hs ->
  handleResponse url_host request response c =
  let siteId := propertyKey (url_host (url request)) in
  let fallThrough :=
    let '(ret, c') := startAttempt siteId c in (inr ret, c') in
  if hasAuthorization hs then fallThrough
  else
    match siteMap c !! siteId with
    | Some (RecordPromise p) => (inr (ReturnThenRetry p), c)
    | Some RecordRetry => (inr ReturnRetry, c)
    | Some RecordNotSupported => (inr ReturnUndefined, c)
    | None => fallThrough
    end.
Proof.
  intros Hstatus Hhs. unfold handleResponse.
  rewrite (challenge_status response Hstatus), Hhs.
  destruct (hasAuthorization hs); reflexivity.
Qed.

Lemma promiseState_new c siteId :
  promiseState (List.length (tokenPromises c)) (startAttempt siteId c).2 = Pending.
Proof.
  unfold promiseState, startAttempt; simpl.
  rewrite lookup_app_r by lia. rewrite Nat.sub_diag. reflexivity.
Qed.

Lemma promiseState_settle p o c :
  promiseState p c = Pending -> (p < List.length (tokenPromises c))%nat ->
  o <> Pending ->
  promiseState p (settle p o c) = o.
Proof.
  unfold promiseState, settle. intros Hpend Hlt Ho.
  destruct (tokenPromises c !! p) as [tp|] eqn:Htp.
  - rewrite Hpend. destruct o as [| v | e]; [congruence | |]; simpl;
      rewrite list_lookup_insert_eq by exact Hlt; reflexivity.
  - apply lookup_ge_None in Htp. lia.
Qed.

(** C3, as the code has it.  On a 401/403 for a request with a header
    list: if the list has an [Authorization] header, the handler starts a new
    attempt whatever the site's record is, stores it as the site's record
    and returns it; if it has none, the record decides: a pending attempt is
    awaited and the request retried once it is fulfilled, [Retry] retries at
    once, [NotSupported] returns no value, and without a record a new attempt
    is started.  Only the last case and the first start an attempt. *)
Theorem handleResponse_authorization_gate request response c hs :
  statusCode response = 401 \/ statusCode response = 403 ->
  headers request = Some hs ->
  let siteId := propertyKey (url_host (url request)) in
  let fresh := List.length (tokenPromises c) in
  let started :=
    {| siteMap := <[siteId := RecordPromise fresh]> (siteMap c);
       tokenPromises :=
         tokenPromises c ++ [{| tp_siteId := siteId; tp_state := Pending |}] |} in
  let result := handleResponse url_host request response c in
  (hasAuthorization hs = true ->
     result = (inr (ReturnTokenPromise fresh), started)) /\
  (hasAuthorization hs = false ->
     match siteMap c !! siteId with
     | Some (RecordPromise p) =>
         result = (inr (ReturnThenRetry p), c) /\
         (forall c', promiseState p c' = Pending ->
                     outcome (ReturnThenRetry p) c' = Waiting) /\
         (forall c' v, promiseState p c' = Fulfilled v ->
                       outcome (ReturnThenRetry p) c' = RetryOriginal)
     | Some RecordRetry =>
         result = (inr ReturnRetry, c) /\
         (forall c', outcome ReturnRetry c' = RetryOriginal)
     | Some RecordNotSupported =>
         result = (inr ReturnUndefined, c) /\
         (forall c', outcome ReturnUndefined c' = KeepResponse)
     | None => result = (inr (ReturnTokenPromise fresh), started)
     end).
Proof.
  intros Hstatus Hhs siteId fresh started result.
  unfold result. rewrite (handleResponse_challenge request response c hs Hstatus Hhs).
  cbv zeta. fold siteId. split; intros Hauth; rewrite Hauth.
  - reflexivity.
  - destruct (siteMap c !! siteId) as [[p | |]|].
    + split; [reflexivity |]. split.
      * intros c' Hp. simpl. rewrite Hp. reflexivity.
      * intros c' v Hp. simpl. rewrite Hp. reflexivity.
    + split; [reflexivity | intros c'; reflexivity].
    + split; [reflexivity | intros c'; reflexivity].
    + reflexivity.
Qed.

(** C4, as the code has it.  When a pending attempt is fulfilled the site's
    record becomes [Retry] if it yielded a response and [NotSupported] if it
    yielded none.  When it is rejected the site map is not touched; those who
    wait on the attempt are not left waiting: they fail with its error. *)
Theorem settle_updates_record_on_fulfilment p tp c :
  tokenPromises c !! p = Some tp ->
  tp_state tp = Pending ->
  (forall r,
     siteMap (settle p (Fulfilled (Some r)) c) !! tp_siteId tp = Some RecordRetry) /\
  siteMap (settle p (Fulfilled None) c) !! tp_siteId tp = Some RecordNotSupported /\
  (forall e,
     siteMap (settle p (Rejected e) c) = siteMap c /\
     outcome (ReturnThenRetry p) (settle p (Rejected e) c) = Fails e /\
     outcome (ReturnTokenPromise p) (settle p (Rejected e) c) = Fails e).
Proof.
  intros Htp Hpend.
  assert (Hlt : (p < List.length (tokenPromises c))%nat)
    by (eapply lookup_lt_Some; eauto).
  split; [| split].
  - intros r. unfold settle. rewrite Htp, Hpend. simpl. apply lookup_insert_eq.
  - unfold settle. rewrite Htp, Hpend. simpl. apply lookup_insert_eq.
  - intros e.
    assert (Hstate : promiseState p (settle p (Rejected e) c) = Rejected e).
    { apply promiseState_settle; [| exact Hlt | discriminate].
      unfold promiseState. rewrite Htp. exact Hpend. }
    split; [| split].
    + unfold settle. rewrite Htp, Hpend. reflexivity.
    + simpl. rewrite Hstate. reflexivity.
    + simpl. rewrite Hstate. reflexivity.
Qed.
End CoordinatorProperties.

(** ** Single flight *)

Section SingleFlight.
Variable url_host : string -> option string.
Implicit Types (c : Coordinator) (call : IHttpRequest * IHttpResponse).

(** While the site's record is a pending attempt, every unauthenticated
    challenge for the site is handed that attempt and starts nothing. *)
Lemma run_waiters siteId p (calls : list (IHttpRequest * IHttpResponse)) c :
  siteMap c !! siteId = Some (RecordPromise p) ->
  Forall (unauthenticatedChallenge url_host siteId) calls ->
  run url_host (handlerCalls calls) c
  = (map (fun _ => inr (ReturnThenRetry p)) calls, c).
Proof.
  intros Hrec Hall. induction Hall as [|call rest Hcall _ IH]; [reflexivity |].
  destruct Hcall as (Hstatus & Hsite & hs & Hhs & Hauth).
  cbn [handlerCalls map run].
  rewrite (handleResponse_challenge url_host call.1 call.2 c hs Hstatus Hhs).
  cbv zeta. rewrite Hauth, Hsite, Hrec.
  fold (handlerCalls rest). rewrite IH. reflexivity.
Qed.

(** C2, as the code has it.  Among any number of 401/403 answers for one
    site, to requests with a header list without [Authorization], arriving
    while the site has no record: the first call starts one attempt and is
    handed its promise, every later call is handed the same pending attempt,
    and no second attempt is started.  When the attempt is fulfilled, every
    later caller retries the original request whatever it yielded, while the
    first caller gets what the attempt yielded (its response, or no value, so
    that the 401/403 stands); when it is rejected they all fail with its
    error. *)
Theorem single_flight_among_unauthenticated siteId call
    (others : list (IHttpRequest * IHttpResponse)) c :
  siteMap c !! siteId = None ->
  Forall (unauthenticatedChallenge url_host siteId) (call :: others) ->
  let p := List.length (tokenPromises c) in
  let result := run url_host (handlerCalls (call :: others)) c in
  result.1 = inr (ReturnTokenPromise p) :: map (fun _ => inr (ReturnThenRetry p)) others /\
  tokenPromises result.2
    = tokenPromises c ++ [{| tp_siteId := siteId; tp_state := Pending |}] /\
  siteMap result.2 = <[siteId := RecordPromise p]> (siteMap c) /\
  outcome (ReturnTokenPromise p) result.2 = Waiting /\
  outcome (ReturnThenRetry p) result.2 = Waiting /\
  (forall v,
     outcome (ReturnThenRetry p) (settle p (Fulfilled v) result.2) = RetryOriginal /\
     outcome (ReturnTokenPromise p) (settle p (Fulfilled v) result.2)
     = match v with Some r => ReplaceWith r | None => KeepResponse end) /\
  (forall e,
     outcome (ReturnThenRetry p) (settle p (Rejected e) result.2) = Fails e /\
     outcome (ReturnTokenPromise p) (settle p (Rejected e) result.2) = Fails e).
Proof.
  intros Habsent Hall p result.
  apply Forall_cons in Hall as [Hcall Hothers].
  destruct Hcall as (Hstatus & Hsite & hs & Hhs & Hauth).
  assert (Hres : result =
    (inr (ReturnTokenPromise p) :: map (fun _ => inr (ReturnThenRetry p)) others,
     (startAttempt siteId c).2)).
  { unfold result. cbn [handlerCalls map run].
    rewrite (handleResponse_challenge url_host call.1 call.2 c hs Hstatus Hhs).
    cbv zeta. rewrite Hauth, Hsite, Habsent.
    cbn [startAttempt]. fold (handlerCalls others).
    rewrite (run_waiters siteId p others); [reflexivity | | exact Hothers].
    cbn [siteMap]. apply lookup_insert_eq. }
  rewrite Hres. cbn [fst snd].
  assert (Hpending : promiseState p (startAttempt siteId c).2 = Pending)
    by apply promiseState_new.
  assert (Hlt : (p < List.length (tokenPromises (startAttempt siteId c).2))%nat).
  { cbn [startAttempt snd tokenPromises]. rewrite length_app. simpl. lia. }
  split; [reflexivity |]. split; [reflexivity |]. split; [reflexivity |].
  split; [cbn [outcome]; rewrite Hpending; reflexivity |].
  split; [cbn [outcome]; rewrite Hpending; reflexivity |].
  split.
  - intros v. cbn [outcome].
    rewrite (promiseState_settle p (Fulfilled v)) by (assumption || discriminate).
    split; [reflexivity | destruct v; reflexivity].
  - intros e. cbn [outcome].
    rewrite (promiseState_settle p (Rejected e)) by (assumption || discriminate).
    split; reflexivity.
Qed.
End SingleFlight.

Section AttemptsPerSite.
Variable url_host : string -> option string.
Implicit Types (c : Coordinator).

Lemma attemptsFor_startAttempt siteId siteId' c :
  attemptsFor siteId' (startAttempt siteId c).2
  = (attemptsFor siteId' c + if decide (siteId = siteId') then 1 else 0)%nat.
Proof.
  unfold attemptsFor, startAttempt. cbn [snd tokenPromises].
  rewrite fmap_app, filter_app, length_app. f_equal.
  cbn [fmap list_fmap tp_siteId]. rewrite filter_cons, filter_nil.
  destruct (decide (siteId = siteId')) as [Heq | Hne]; reflexivity.
Qed.

Lemma settle_sites p o c :
  tp_siteId <$> tokenPromises (settle p o c) = tp_siteId <$> tokenPromises c.
Proof.
  unfold settle. destruct (tokenPromises c !! p) as [tp|] eqn:Htp; [| reflexivity].
  destruct (tp_state tp), o; try reflexivity; cbn [tokenPromises];
    rewrite list_fmap_insert; cbn [tp_siteId];
    apply list_insert_id; rewrite list_lookup_fmap, Htp; reflexivity.
Qed.

Lemma settle_keeps_records p o c siteId :
  siteMap (settle p o c) !! siteId = None -> siteMap c !! siteId = None.
Proof.
  unfold settle. destruct (tokenPromises c !! p) as [tp|]; [| tauto].
  destruct (tp_state tp), o; try tauto; cbn [siteMap]; try tauto.
  destruct (decide (tp_siteId tp = siteId)) as [<- | Hne].
  - rewrite lookup_insert_eq. discriminate.
  - rewrite lookup_insert_ne by exact Hne. tauto.
Qed.

Lemma AtMostOneAttempt_settle p o c :
  AtMostOneAttempt c -> AtMostOneAttempt (settle p o c).
Proof.
  intros Hinv siteId. destruct (Hinv siteId) as [Hle Hnone].
  unfold attemptsFor in *. rewrite settle_sites.
  split; [exact Hle |]. intros Hlook. apply Hnone.
  eapply settle_keeps_records. exact Hlook.
Qed.

Lemma AtMostOneAttempt_startAttempt siteId c :
  siteMap c !! siteId = None ->
  AtMostOneAttempt c -> AtMostOneAttempt (startAttempt siteId c).2.
Proof.
  intros Habsent Hinv siteId'. destruct (Hinv siteId') as [Hle Hnone].
  rewrite attemptsFor_startAttempt.
  destruct (decide (siteId = siteId')) as [<- | Hne].
  - rewrite (Hnone Habsent). split; [lia |].
    cbn [startAttempt snd siteMap]. rewrite lookup_insert_eq. discriminate.
  - rewrite Nat.add_0_r. split; [exact Hle |].
    cbn [startAttempt snd siteMap]. rewrite lookup_insert_ne by exact Hne.
    exact Hnone.
Qed.

Lemma AtMostOneAttempt_handleResponse request response c :
  withoutAuthorization (HandlerCall request response) ->
  AtMostOneAttempt c ->
  AtMostOneAttempt (handleResponse url_host request response c).2.
Proof.
  intros Hno Hinv. unfold handleResponse.
  destruct (bool_decide (statusCode response ≠ 401)
            && bool_decide (statusCode response ≠ 403)); [exact Hinv |].
  destruct (headers request) as [hs|] eqn:Hhs; [| exact Hinv].
  rewrite (Hno hs Hhs). cbn [negb].
  destruct (siteMap c !! propertyKey (url_host (url request))) as [[p | |]|] eqn:Hrec;
    try exact Hinv.
  apply (AtMostOneAttempt_startAttempt _ c Hrec Hinv).
Qed.

(** Whatever the order of handler calls and settlements, as long as no call
    is for a request with an [Authorization] header, no site ever gets a
    second attempt. *)
Lemma at_most_one_attempt_per_site (evs : list CoordinatorEvent) c :
  Forall withoutAuthorization evs ->
  AtMostOneAttempt c ->
  AtMostOneAttempt (run url_host evs c).2.
Proof.
  intros Hall. revert c. induction Hall as [|ev rest Hev _ IH]; intros c Hinv.
  - exact Hinv.
  - destruct ev as [request response | p o]; cbn [run].
    + pose proof (AtMostOneAttempt_handleResponse request response c Hev Hinv) as Hstep.
      destruct (handleResponse url_host request response c) as [r c'].
      specialize (IH c' Hstep).
      destruct (run url_host rest c') as [rs c'']. exact IH.
    + apply IH, AtMostOneAttempt_settle, Hinv.
Qed.

Lemma AtMostOneAttempt_initially : AtMostOneAttempt createResponseHandler.
Proof. intros siteId. split; [apply Nat.le_0_l | reflexivity]. Qed.
End AttemptsPerSite.

(** A request that carries [Authorization] starts an attempt of its own even
    while one is pending: two such calls leave two attempts for the site. *)
Lemma authorized_requests_start_attempts_anyway :
  let request := sampleRequest GET "https://example.com/a" (Some [bearer]) in
  let response := sampleResponse 401 "Unauthorized" in
  let result :=
    run sampleHost [HandlerCall request response; HandlerCall request response]
      createResponseHandler in
  result.1 = [inr (ReturnTokenPromise 0); inr (ReturnTokenPromise 1)] /\
  attemptsFor "example.com" result.2 = 2%nat.
Proof. vm_compute. split; reflexivity. Qed.

(** ** The attempt itself *)

Section AcquireTokenProperties.
Context {W : Type}.
Variable url_resolve : string -> string -> string.
Variable pipeline_requestAsync : IHttpRequest -> W -> Settle IHttpResponse * W.
Variable handleAadAsync :
  AadOptions -> IHttpRequest -> IHttpResponse -> W -> Settle (option IHttpResponse) * W.

(** A metadata request that fails makes the attempt fail with the same
    error: the attempt is rejected, not fulfilled with no value. *)
Lemma acquireTokenAsync_metadata_rejected request response (w w' : W) e :
  pipeline_requestAsync (metadataRequest url_resolve request) w = (Reject e, w') ->
  acquireTokenAsync url_resolve pipeline_requestAsync handleAadAsync request response w
  = (Reject e, w').
Proof. intros Hm. unfold acquireTokenAsync. rewrite Hm. reflexivity. Qed.

(** A metadata answer other than 200 yields no value. *)
Lemma acquireTokenAsync_metadata_not_ok request response (w w' : W) r :
  pipeline_requestAsync (metadataRequest url_resolve request) w = (Fulfil r, w') ->
  statusCode r <> 200 ->
  acquireTokenAsync url_resolve pipeline_requestAsync handleAadAsync request response w
  = (Fulfil None, w').
Proof.
  intros Hm Hstatus. unfold acquireTokenAsync. rewrite Hm.
  rewrite bool_decide_eq_true_2 by exact Hstatus. reflexivity.
Qed.

(** Metadata of a type other than ["aad"] yields no value. *)
Lemma acquireTokenAsync_not_aad request response (w w' : W) r md :
  pipeline_requestAsync (metadataRequest url_resolve request) w = (Fulfil r, w') ->
  statusCode r = 200 -> data r = Some md -> md_type md <> "aad" ->
  acquireTokenAsync url_resolve pipeline_requestAsync handleAadAsync request response w
  = (Fulfil None, w').
Proof.
  intros Hm Hstatus Hdata Htype. unfold acquireTokenAsync. rewrite Hm, Hdata.
  rewrite bool_decide_eq_false_2 by (intros Hne; apply Hne; exact Hstatus).
  destruct (String.eqb_spec (md_type md) "aad") as [Heq | _]; [contradiction |].
  reflexivity.
Qed.

(** For ["aad"] metadata the attempt is the login flow's. *)
Lemma acquireTokenAsync_aad request response (w w' : W) r md :
  pipeline_requestAsync (metadataRequest url_resolve request) w = (Fulfil r, w') ->
  statusCode r = 200 -> data r = Some md -> md_type md = "aad" ->
  acquireTokenAsync url_resolve pipeline_requestAsync handleAadAsync request response w
  = handleAadAsync
      {| aad_authority := authority (metadata md);
         redirectUri := url_resolve (url request) "/Explorer/index.html";
         clientId := cluster (metadata md) |}
      request response w'.
Proof.
  intros Hm Hstatus Hdata Htype. unfold acquireTokenAsync. rewrite Hm, Hdata, Htype.
  rewrite bool_decide_eq_false_2 by (intros Hne; apply Hne; exact Hstatus).
  reflexivity.
Qed.
End AcquireTokenProperties.

(** ** Examples on [https://example.com] *)

(** C10 on [POST https://example.com/a] without headers, answered 401. *)
Lemma handleResponse_without_headers_throws_witness :
  let request := sampleRequest POST "https://example.com/a" None in
  let response := sampleResponse 401 "Unauthorized" in
  headers request = None /\
  handleResponse sampleHost request response createResponseHandler
  = (inl undefinedFind, createResponseHandler).
Proof.
  intros request response. split; [reflexivity |].
  apply (handleResponse_without_headers_throws sampleHost request response
           createResponseHandler); [reflexivity | left; reflexivity].
Defined.

(** The same through a pipeline without template: the caller's request
    reaches the response handler as it is, and the call fails with the
    [TypeError]. *)
Example requestAsync_challenge_without_headers :
  let p := {| requestTemplate := None; _requestHandlers := 0; _responseHandlers := 0 |} in
  let handler : HttpResponseHandler Coordinator :=
    responseHandler sampleHost (fun c => c) (fun c _ => c)
      (fun _ request c => (Never, request, c)) in
  let s : PState Coordinator :=
    {| trace := [];
       requestArrays := {[ 0%nat := [answering (sampleResponse 401 "Unauthorized")] ]};
       responseArrays := {[ 0%nat := [handler] ]};
       world := createResponseHandler |} in
  (requestAsync p (sampleRequest POST "https://example.com/a" None) s).1.1
  = Reject undefinedFind.
Proof. reflexivity. Qed.

(** C3, as stated, fails: a 401 for a request that carries [Authorization]
    starts an attempt when the site has no record, and also when the site is
    recorded as [NotSupported]; in neither case does the handler return no
    value. *)
Lemma authorized_challenge_starts_attempt :
  let plain := sampleRequest GET "https://example.com/a" (Some []) in
  let authorized := sampleRequest GET "https://example.com/a" (Some [bearer]) in
  let response := sampleResponse 401 "Unauthorized" in
  let notSupported :=
    settle 0 (Fulfilled None)
      (handleResponse sampleHost plain response createResponseHandler).2 in
  (handleResponse sampleHost authorized response createResponseHandler).1
    = inr (ReturnTokenPromise 0) /\
  siteMap notSupported !! "example.com" = Some RecordNotSupported /\
  (handleResponse sampleHost authorized response notSupported).1
    = inr (ReturnTokenPromise 1) /\
  siteMap (handleResponse sampleHost authorized response notSupported).2 !! "example.com"
    = Some (RecordPromise 1).
Proof. vm_compute. repeat split. Qed.

(** C3 on the same requests. *)
Lemma handleResponse_authorization_gate_witness :
  let plain := sampleRequest GET "https://example.com/a" (Some []) in
  let authorized := sampleRequest GET "https://example.com/a" (Some [bearer]) in
  let response := sampleResponse 403 "Forbidden" in
  (handleResponse sampleHost authorized response createResponseHandler).1
    = inr (ReturnTokenPromise 0) /\
  (handleResponse sampleHost plain response createResponseHandler).1
    = inr (ReturnTokenPromise 0).
Proof.
  intros plain authorized response. split.
  - destruct (handleResponse_authorization_gate sampleHost authorized response
                createResponseHandler [bearer] (or_intror eq_refl) eq_refl)
      as [Hauth _].
    rewrite (Hauth eq_refl). reflexivity.
  - destruct (handleResponse_authorization_gate sampleHost plain response
                createResponseHandler [] (or_intror eq_refl) eq_refl)
      as [_ Hplain].
    specialize (Hplain eq_refl). cbn in Hplain. rewrite Hplain. reflexivity.
Defined.

(** C4, as stated, fails: the metadata request of an attempt fails, so the
    attempt is rejected; the site's record stays the rejected promise (it
    becomes neither [NotSupported] nor [Retry]), and a later challenge for the
    site waits on that promise and fails with the old error. *)
Lemma rejected_attempt_leaves_record :
  let request := sampleRequest GET "https://example.com/a" (Some []) in
  let response := sampleResponse 401 "Unauthorized" in
  let e := Error "connect ECONNREFUSED" in
  let attempt :=
    acquireTokenAsync sampleResolve (fun _ (w : unit) => (Reject e, w))
      (fun _ _ _ w => (Fulfil None, w)) request response tt in
  let c1 := (handleResponse sampleHost request response createResponseHandler).2 in
  let c2 := settle 0 (toPromiseState attempt.1) c1 in
  toPromiseState attempt.1 = Rejected e /\
  siteMap c1 !! "example.com" = Some (RecordPromise 0) /\
  siteMap c2 !! "example.com" = Some (RecordPromise 0) /\
  siteMap c2 !! "example.com" <> Some RecordNotSupported /\
  (handleResponse sampleHost request response c2).1 = inr (ReturnThenRetry 0) /\
  outcome (ReturnThenRetry 0) c2 = Fails e.
Proof. vm_compute. repeat split. intros Heq; discriminate Heq. Qed.

(** C4 on the attempt for [example.com]. *)
Lemma settle_updates_record_on_fulfilment_witness :
  let request := sampleRequest GET "https://example.com/a" (Some []) in
  let response := sampleResponse 401 "Unauthorized" in
  let c1 := (handleResponse sampleHost request response createResponseHandler).2 in
  tokenPromises c1 !! 0%nat = Some {| tp_siteId := "example.com"; tp_state := Pending |} /\
  siteMap (settle 0 (Fulfilled (Some (sampleResponse 200 "OK"))) c1) !! "example.com"
    = Some RecordRetry /\
  siteMap (settle 0 (Fulfilled None) c1) !! "example.com" = Some RecordNotSupported.
Proof.
  intros request response c1.
  assert (Htp : tokenPromises c1 !! 0%nat
                = Some {| tp_siteId := "example.com"; tp_state := Pending |})
    by reflexivity.
  destruct (settle_updates_record_on_fulfilment 0
              {| tp_siteId := "example.com"; tp_state := Pending |} c1 Htp eq_refl)
    as (Hretry & Hnot & _).
  split; [exact Htp |]. split; [apply Hretry | exact Hnot].
Defined.

(** C2, as stated, fails: of two concurrent callers for [example.com]
    whose attempt yields nothing, the first is left with the original 401 and
    the second retries the request. *)
Lemma single_flight_outcomes_differ :
  let request := sampleRequest GET "https://example.com/a" (Some []) in
  let response := sampleResponse 401 "Unauthorized" in
  let result :=
    run sampleHost [HandlerCall request response; HandlerCall request response]
      createResponseHandler in
  let c := settle 0 (Fulfilled None) result.2 in
  result.1 = [inr (ReturnTokenPromise 0); inr (ReturnThenRetry 0)] /\
  outcome (ReturnTokenPromise 0) c = KeepResponse /\
  outcome (ReturnThenRetry 0) c = RetryOriginal /\
  outcome (ReturnTokenPromise 0) c <> outcome (ReturnThenRetry 0) c.
Proof. vm_compute. repeat split. intros Heq; discriminate Heq. Qed.

(** C2 on three concurrent callers for [example.com]. *)
Lemma single_flight_among_unauthenticated_witness :
  let call := (sampleRequest GET "https://example.com/a" (Some [headerA]),
               sampleResponse 401 "Unauthorized") in
  let result := run sampleHost (handlerCalls [call; call; call]) createResponseHandler in
  Forall (unauthenticatedChallenge sampleHost "example.com") [call; call; call] /\
  result.1 = [inr (ReturnTokenPromise 0); inr (ReturnThenRetry 0); inr (ReturnThenRetry 0)] /\
  List.length (tokenPromises result.2) = 1%nat.
Proof.
  intros call result.
  assert (Hcall : unauthenticatedChallenge sampleHost "example.com" call).
  { split; [left; reflexivity |]. split; [reflexivity |].
    exists [headerA]. split; reflexivity. }
  assert (Hall : Forall (unauthenticatedChallenge sampleHost "example.com")
                   [call; call; call]).
  { do 3 (constructor 2; [exact Hcall |]). constructor 1. }
  destruct (single_flight_among_unauthenticated sampleHost "example.com" call
              [call; call] createResponseHandler eq_refl Hall)
    as (Hrets & Hpromises & _).
  fold result in Hrets, Hpromises.
  split; [exact Hall |]. split; [exact Hrets |].
  rewrite Hpromises. reflexivity.
Defined.

(** * Further properties *)

(** ** The pipeline: response handlers, failing handlers, logging *)

Section MorePipelineProperties.
Context {W : Type}.
Implicit Types (p : HttpPipeline) (s : PState W) (request : IHttpRequest).

Lemma responseHandlerCalls_responses (l : list nat) :
  responseHandlerCalls (map EvResponseHandler l) = l.
Proof. induction l as [|i l IH]; simpl; [reflexivity | f_equal; exact IH]. Qed.

Lemma processResponse_kept p (hs : list (HttpResponseHandler W)) request response
    (w : W) request' w' :
  Kept p hs request response w request' w' ->
  forall i s, world s = w ->
  processResponse p hs i request response s =
  (Fulfil response, request',
   extend (map EvResponseHandler (seq i (List.length hs))) w' s).
Proof.
  induction 1 as [request response w
                 | h rest request response w request1 w1 request' w' Hh _ IH];
    intros i s Hw.
  - simpl. rewrite <- Hw, extend_nil. reflexivity.
  - simpl. rewrite Hw, Hh. cbn [default].
    rewrite (IH (S i) (record_event (EvResponseHandler i) w1 s) eq_refl).
    rewrite record_event_extend, extend_extend. reflexivity.
Qed.

(** The precise state in which the first loop is left by a handler that
    does not fulfil. *)
Lemma dispatchRequest_unsettled p
    (before : list (HttpRequestHandler W)) (h : HttpRequestHandler W)
    (after : list (HttpRequestHandler W)) request (w : W)
    request1 w1 (r : Settle (option IHttpResponse)) request2 w2 :
  Declined p before request w request1 w1 ->
  h p request1 w1 = (r, request2, w2) ->
  (forall v, r <> Fulfil v) ->
  forall i s, world s = w ->
  dispatchRequest p (before ++ h :: after) i request s =
  (r, request2, extend (map EvRequestHandler (seq i (S (List.length before)))) w2 s).
Proof.
  induction 1 as [request w | h0 rest request w requestm wm request1 w1 Hh0 _ IH];
    intros Hh Hr i s Hw.
  - simpl. rewrite Hw, Hh.
    destruct r as [v | e |]; [destruct (Hr v eq_refl) | reflexivity | reflexivity].
  - simpl. rewrite Hw, Hh0.
    rewrite (IH Hh Hr (S i) (record_event (EvRequestHandler i) wm s) eq_refl).
    rewrite record_event_extend, extend_extend. reflexivity.
Qed.
End MorePipelineProperties.

(** X1.  Response handlers that all return no value leave the response as
    it is: the loop gives back the response it started from, after calling
    every handler once, in order. *)
Theorem processResponse_all_keep {W : Type} (p : HttpPipeline)
    (hs : list (HttpResponseHandler W)) (request : IHttpRequest)
    (response : IHttpResponse) (s : PState W) (request' : IHttpRequest) (w' : W) :
  Kept p hs request response (world s) request' w' ->
  let result := processResponse p hs 0%nat request response s in
  result.1 = (Fulfil response, request') /\
  responseHandlerCalls (trace result.2)
    = responseHandlerCalls (trace s) ++ seq 0 (List.length hs) /\
  world result.2 = w'.
Proof.
  intros Hkept result. unfold result.
  rewrite (processResponse_kept p hs request response (world s) request' w' Hkept
             0%nat s eq_refl).
  cbn [fst snd extend trace world].
  rewrite responseHandlerCalls_app, responseHandlerCalls_responses.
  repeat split.
Qed.

Lemma processResponse_all_keep_witness :
  let p := {| requestTemplate := None; _requestHandlers := 0; _responseHandlers := 0 |} in
  let request := sampleRequest GET "http://example.com/a" None in
  let response := sampleResponse 404 "Not Found" in
  let result :=
    processResponse p [@keeping unit; keeping] 0%nat request response (emptyState tt) in
  result.1 = (Fulfil response, request) /\
  responseHandlerCalls (trace result.2) = [0; 1]%nat.
Proof.
  intros p request response result.
  assert (Hkept : Kept p [@keeping unit; keeping] request response
                    (world (emptyState tt)) request tt).
  { eapply Kept_cons; [reflexivity |].
    eapply Kept_cons; [reflexivity |]. apply Kept_nil. }
  destruct (processResponse_all_keep p [keeping; keeping] request response
              (emptyState tt) request tt Hkept) as (Hres & Hcalls & _).
  fold result in Hres, Hcalls. split; [exact Hres | exact Hcalls].
Defined.

(** X2.  The response loop composes: on a chain [hs1 ++ hs2] the handlers of
    [hs2] start from the request, the response and the state the handlers of
    [hs1] have left; and when a handler of [hs1] throws or never settles, no
    handler of [hs2] takes part. *)
Theorem processResponse_app {W : Type} (p : HttpPipeline)
    (hs1 hs2 : list (HttpResponseHandler W)) (i : nat) (request : IHttpRequest)
    (response : IHttpResponse) (s : PState W) :
  processResponse p (hs1 ++ hs2) i request response s =
  match processResponse p hs1 i request response s with
  | (Fulfil response1, request1, s1) =>
      processResponse p hs2 (i + List.length hs1) request1 response1 s1
  | failed => failed
  end.
Proof.
  revert i request response s.
  induction hs1 as [|h rest IH]; intros i request response s.
  - simpl. rewrite Nat.add_0_r. reflexivity.
  - cbn [app processResponse List.length].
    destruct (h p request response (world s)) as [[r request'] w'].
    destruct r as [o | e |]; [| reflexivity | reflexivity].
    rewrite IH. replace (S i + List.length rest)%nat with (i + S (List.length rest))%nat
      by lia.
    reflexivity.
Qed.

(** X3.  When the first request handler that does not decline throws or
    never settles, the call settles the same way; the handlers behind it and
    all response handlers are not called, and no completion message is
    logged. *)
Theorem requestAsync_request_handler_fails {W : Type} (p : HttpPipeline)
    (request : IHttpRequest) (s : PState W)
    (before : list (HttpRequestHandler W)) (h : HttpRequestHandler W)
    (after : list (HttpRequestHandler W))
    (request1 : IHttpRequest) (w1 : W) (r : Settle (option IHttpResponse))
    (request2 : IHttpRequest) (w2 : W) :
  requestChain p s = before ++ h :: after ->
  Declined p before (effectiveRequest (requestTemplate p) request) (world s)
    request1 w1 ->
  h p request1 w1 = (r, request2, w2) ->
  r = Never \/ (exists e, r = Reject e) ->
  let result := requestAsync p request s in
  result.1.1 = match r with Reject e => Reject e | _ => Never end /\
  requestHandlerCalls (trace result.2)
    = requestHandlerCalls (trace s) ++ seq 0 (S (List.length before)) /\
  responseHandlerCalls (trace result.2) = responseHandlerCalls (trace s) /\
  logMessages (trace result.2)
    = logMessages (trace s)
      ++ [startMessage (effectiveRequest (requestTemplate p) request)].
Proof.
  intros Hchain Hdecl Hh Hr result.
  assert (Hnot : forall v, r <> Fulfil v).
  { intros v Heq. destruct Hr as [Hn | [e He]]; congruence. }
  assert (Hres : result =
    (match r with Reject e => Reject e | _ => Never end, request2,
     extend (EvLogInfo (startMessage (effectiveRequest (requestTemplate p) request))
               :: map EvRequestHandler (seq 0 (S (List.length before)))) w2 s)).
  { unfold result, requestAsync.
    set (e := effectiveRequest (requestTemplate p) request) in *.
    change (array_read (_requestHandlers p)
              (requestArrays (writeInfoAsync (startMessage e) s)))
      with (requestChain p s).
    rewrite Hchain.
    rewrite (dispatchRequest_unsettled p before h after e (world s) request1 w1 r
               request2 w2 Hdecl Hh Hnot 0%nat (writeInfoAsync (startMessage e) s)
               eq_refl).
    unfold writeInfoAsync. rewrite record_event_extend, extend_extend.
    destruct r as [v | err |]; [destruct (Hnot v eq_refl) | reflexivity | reflexivity]. }
  rewrite Hres. cbn [fst snd extend trace].
  change (EvLogInfo ?m :: ?l) with ([EvLogInfo m] ++ l).
  rewrite !requestHandlerCalls_app, !responseHandlerCalls_app, !logMessages_app.
  rewrite requestHandlerCalls_requests, responseHandlerCalls_requests,
    logMessages_requests.
  simpl. rewrite !app_nil_r. repeat split.
Qed.

Lemma requestAsync_request_handler_fails_witness :
  let p := {| requestTemplate := None; _requestHandlers := 0; _responseHandlers := 0 |} in
  let e := Error "connect ECONNREFUSED" in
  let s : PState unit :=
    {| trace := [];
       requestArrays :=
         {[ 0%nat := [declining; throwing e; answering (sampleResponse 200 "OK")] ]};
       responseArrays := {[ 0%nat := [keeping] ]}; world := tt |} in
  let result := requestAsync p (sampleRequest GET "http://example.com/a" None) s in
  result.1.1 = Reject e /\
  requestHandlerCalls (trace result.2) = [0; 1]%nat /\
  responseHandlerCalls (trace result.2) = [].
Proof.
  intros p e s result.
  assert (Hdecl : Declined p [@declining unit]
            (effectiveRequest (requestTemplate p)
               (sampleRequest GET "http://example.com/a" None))
            (world s) (sampleRequest GET "http://example.com/a" None) tt).
  { eapply Declined_cons; [reflexivity | apply Declined_nil]. }
  destruct (requestAsync_request_handler_fails p
              (sampleRequest GET "http://example.com/a" None) s
              [declining] (throwing e) [answering (sampleResponse 200 "OK")]
              (sampleRequest GET "http://example.com/a" None) tt (Reject e)
              (sampleRequest GET "http://example.com/a" None) tt
              eq_refl Hdecl eq_refl (or_intror (ex_intro _ e eq_refl)))
    as (Hres & Hq & Hr & _).
  fold result in Hres, Hq, Hr. repeat split; assumption.
Defined.

(** X4.  Merging the template into a request that was already merged (as
    happens when a response handler re-issues the effective request) changes
    nothing but the headers, and the headers become the template's headers
    twice, whatever the request carried. *)
Theorem effectiveRequest_again (template request : IHttpRequest) :
  effectiveRequest (Some template) (effectiveRequest (Some template) request)
  = set_headers (effectiveRequest (Some template) request)
      (default [] (headers template) ++ default [] (headers template)).
Proof.
  destruct template as [tssl tcert tm tu th tb].
  destruct request as [rssl rcert rm ru rh rb].
  unfold effectiveRequest, set_headers, Object_assign, mergedHeaders.
  cbn [sslVersion clientCert method url headers body].
  destruct rssl, rcert, rh, th, rb, tssl, tcert, tb; reflexivity.
Qed.

(** X5.  A call that is answered logs exactly two messages: the start
    message, and a completion message with the status of the response the
    request handler returned, whatever the response handlers turn that
    response into afterwards. *)
Theorem requestAsync_logs_first_response {W : Type} (p : HttpPipeline)
    (request : IHttpRequest) (s : PState W)
    (before : list (HttpRequestHandler W)) (h : HttpRequestHandler W)
    (after : list (HttpRequestHandler W))
    (request1 : IHttpRequest) (w1 : W) (response : IHttpResponse)
    (request2 : IHttpRequest) (w2 : W) :
  requestChain p s = before ++ h :: after ->
  Declined p before (effectiveRequest (requestTemplate p) request) (world s)
    request1 w1 ->
  h p request1 w1 = (Fulfil (Some response), request2, w2) ->
  logMessages (trace (requestAsync p request s).2)
  = logMessages (trace s)
    ++ [startMessage (effectiveRequest (requestTemplate p) request);
        doneMessage request2 response].
Proof.
  intros Hchain Hdecl Hh. unfold requestAsync.
  set (e := effectiveRequest (requestTemplate p) request) in *.
  change (array_read (_requestHandlers p)
            (requestArrays (writeInfoAsync (startMessage e) s)))
    with (requestChain p s).
  rewrite Hchain.
  rewrite (dispatchRequest_first_responder p before h after e (world s)
             request1 w1 response request2 w2 Hdecl Hh 0%nat
             (writeInfoAsync (startMessage e) s) eq_refl).
  match goal with
  | |- context [processResponse p ?hs 0%nat request2 response ?st] =>
      destruct (processResponse_frame p hs 0%nat request2 response st)
        as (_ & _ & _ & Hl)
  end.
  rewrite Hl. unfold writeInfoAsync. rewrite !record_event_extend, !extend_extend.
  cbn [extend trace]. rewrite logMessages_app.
  change (EvLogInfo ?m :: ?l) with ([EvLogInfo m] ++ l).
  rewrite !logMessages_app, logMessages_requests. reflexivity.
Qed.

(** The response handler replaces the 401 by a 200; the log still says
    401. *)
Lemma requestAsync_logs_first_response_witness :
  let p := {| requestTemplate := None; _requestHandlers := 0; _responseHandlers := 0 |} in
  let s : PState unit :=
    {| trace := [];
       requestArrays := {[ 0%nat := [answering (sampleResponse 401 "Unauthorized")] ]};
       responseArrays := {[ 0%nat := [replacing (sampleResponse 200 "OK")] ]};
       world := tt |} in
  let result := requestAsync p (sampleRequest GET "http://example.com/a" None) s in
  result.1.1 = Fulfil (sampleResponse 200 "OK") /\
  logMessages (trace result.2)
  = ["HTTP GET => http://example.com/a";
     "HTTP 401 Unauthorized of HTTP GET => http://example.com/a"].
Proof.
  intros p s result. split; [reflexivity |].
  exact (requestAsync_logs_first_response p
           (sampleRequest GET "http://example.com/a" None) s
           [] (answering (sampleResponse 401 "Unauthorized")) []
           (sampleRequest GET "http://example.com/a" None) tt
           (sampleResponse 401 "Unauthorized")
           (sampleRequest GET "http://example.com/a" None) tt
           eq_refl (Declined_nil p _ _) eq_refl).
Defined.

(** X6.  Two pipelines never share a handler array, even when they were
    built from the same arrays: the second constructor leaves the first
    pipeline's chains as they are, and a [push] through an accessor of one
    pipeline does not change the chain of the other. *)
Theorem constructor_arrays_are_private {W : Type}
    (rq1 rs1 rq2 rs2 : option nat) (s : PState W) :
  let p1 := (constructor rq1 rs1 s).1 in
  let s1 := (constructor rq1 rs1 s).2 in
  let p2 := (constructor rq2 rs2 s1).1 in
  let s2 := (constructor rq2 rs2 s1).2 in
  requestHandlers p1 <> requestHandlers p2 /\
  responseHandlers p1 <> responseHandlers p2 /\
  requestChain p1 s2 = requestChain p1 s1 /\
  responseChain p1 s2 = responseChain p1 s1 /\
  (forall h,
     requestChain p2 (caller_push_requestHandler (requestHandlers p1) h s2)
     = requestChain p2 s2 /\
     requestChain p1 (caller_push_requestHandler (requestHandlers p2) h s2)
     = requestChain p1 s2) /\
  (forall h,
     responseChain p2 (caller_push_responseHandler (responseHandlers p1) h s2)
     = responseChain p2 s2 /\
     responseChain p1 (caller_push_responseHandler (responseHandlers p2) h s2)
     = responseChain p1 s2).
Proof.
  intros p1 s1 p2 s2. subst p1 s1 p2 s2.
  rewrite (constructor_eq rq1 rs1 s).
  cbn [fst snd].
  match goal with
  | |- context [constructor rq2 rs2 ?st] =>
      set (s1 := st); rewrite (constructor_eq rq2 rs2 s1)
  end.
  cbn [fst snd].
  unfold requestChain, responseChain, requestHandlers, responseHandlers,
    caller_push_requestHandler, caller_push_responseHandler.
  cbn [_requestHandlers _responseHandlers requestArrays responseArrays].
  destruct (array_copy_read (requestArrays s) rq1) as (_ & Hq1 & _).
  destruct (array_copy_read (responseArrays s) rs1) as (_ & Hr1 & _).
  cbv zeta in Hq1, Hr1.
  destruct (array_copy_read (requestArrays s1) rq2) as (_ & _ & Hq2).
  destruct (array_copy_read (responseArrays s1) rs2) as (_ & _ & Hr2).
  cbv zeta in Hq2, Hr2.
  specialize (Hq2 _ Hq1). specialize (Hr2 _ Hr1).
  destruct Hq2 as [Hq2 Hqne]. destruct Hr2 as [Hr2 Hrne].
  split; [exact Hqne |]. split; [exact Hrne |].
  split; [exact Hq2 |]. split; [exact Hr2 |].
  split; intros h; split.
  - apply array_read_push_other. exact Hqne.
  - apply array_read_push_other. intros Heq. apply Hqne. symmetry. exact Heq.
  - apply array_read_push_other. exact Hrne.
  - apply array_read_push_other. intros Heq. apply Hrne. symmetry. exact Heq.
Qed.

(** ** The node transport handler: headers and body *)

Lemma applyHeaders_lookup (m : gmap string OutgoingHeader) (hs : list IHttpHeader)
    (n : string) :
  headerValues (applyHeaders m hs !! n)
  = headerValues (m !! n) ++ map value (filter (fun h => name h = n) hs) /\
  (applyHeaders m hs !! n = None <->
   m !! n = None /\ filter (fun h => name h = n) hs = []).
Proof.
  revert m. induction hs as [|h rest IH]; intros m.
  - cbn [applyHeaders]. rewrite filter_nil, app_nil_r. split; [reflexivity | tauto].
  - cbn [applyHeaders]. rewrite filter_cons.
    match goal with
    | |- context [applyHeaders ?m' rest] => destruct (IH m') as [IHv IHn]; clear IH
    end.
    rewrite IHv, IHn; clear IHv IHn.
    destruct (decide (name h = n)) as [Heq | Hne].
    + subst n. destruct (m !! name h) as [[v | vs] |] eqn:Hm;
        rewrite lookup_insert_eq; cbn [headerValues map];
        (split; [rewrite <- ?app_assoc; reflexivity |]);
        split; intros [? ?]; discriminate.
    + destruct (m !! name h) as [[v | vs] |] eqn:Hm;
        rewrite lookup_insert_ne by exact Hne; (split; [reflexivity | tauto]).
Qed.

(** X7.  [applyHeaders] on an empty header object keeps every header: under
    each name it holds exactly the values of the headers with that name, in
    their order, and it has no entry for a name no header carries. *)
Theorem applyHeaders_keeps_all_values (hs : list IHttpHeader) (n : string) :
  headerValues (applyHeaders ∅ hs !! n)
  = map value (filter (fun h => name h = n) hs) /\
  (applyHeaders ∅ hs !! n = None <-> n ∉ map name hs).
Proof.
  destruct (applyHeaders_lookup ∅ hs n) as [Hv Hn].
  rewrite lookup_empty in Hv, Hn. cbn [headerValues app] in Hv.
  split; [exact Hv |]. rewrite Hn. clear Hv Hn.
  split.
  - intros [_ Hf] Hin. apply list_elem_of_fmap in Hin as (h & Hname & Hh).
    assert (Hmem : h ∈ filter (fun h0 => name h0 = n) hs).
    { apply list_elem_of_filter. split; [symmetry; exact Hname | exact Hh]. }
    rewrite Hf in Hmem. inversion Hmem.
  - intros Hnot. split; [reflexivity |].
    destruct (filter (fun h => name h = n) hs) as [|h rest] eqn:Hf; [reflexivity |].
    exfalso. apply Hnot.
    assert (Hmem : h ∈ filter (fun h0 => name h0 = n) hs)
      by (rewrite Hf; apply list_elem_of_here).
    apply list_elem_of_filter in Hmem as [Hname Hh].
    apply list_elem_of_fmap. exists h. split; [symmetry; exact Hname | exact Hh].
Qed.

(** X8.  [generateHeaders] undoes the wire layout: from the raw list of a
    header sequence it gives the sequence back, repeated names included; a
    trailing name without value is dropped. *)
Theorem generateHeaders_rawHeadersOf (hs : list IHttpHeader) (trailing : list string) :
  (List.length trailing <= 1)%nat ->
  generateHeaders (rawHeadersOf hs ++ trailing) = hs.
Proof.
  intros Hlen. induction hs as [|[n v] rest IH].
  - destruct trailing as [|x [|y more]]; [reflexivity | reflexivity |].
    simpl in Hlen. lia.
  - cbn [rawHeadersOf flat_map app generateHeaders name value].
    f_equal. exact IH.
Qed.

Lemma generateHeaders_rawHeadersOf_witness :
  generateHeaders
    (rawHeadersOf [ {| name := "X-Foo"; value := "1" |};
                    {| name := "X-Foo"; value := "2" |} ] ++ ["Dangling"])
  = [ {| name := "X-Foo"; value := "1" |}; {| name := "X-Foo"; value := "2" |} ].
Proof.
  apply (generateHeaders_rawHeadersOf
           [ {| name := "X-Foo"; value := "1" |}; {| name := "X-Foo"; value := "2" |} ]
           ["Dangling"]).
  simpl. lia.
Defined.

(** The header list of lines 91-101, by cases on its head. *)
Lemma forceContentType_cons (h : IHttpHeader) (rest : list IHttpHeader) :
  match findIndex (fun h => String.eqb (name h) "Content-Type") (h :: rest) with
  | Some headerIndex => <[headerIndex := contentTypeHeader]> (h :: rest)
  | None => (h :: rest) ++ [contentTypeHeader]
  end
  = if isContentType h then contentTypeHeader :: rest
    else h :: match findIndex (fun h => String.eqb (name h) "Content-Type") rest with
              | Some headerIndex => <[headerIndex := contentTypeHeader]> rest
              | None => rest ++ [contentTypeHeader]
              end.
Proof.
  cbn [findIndex]. unfold isContentType.
  destruct (String.eqb (name h) "Content-Type"); [reflexivity |].
  destruct (findIndex _ rest) as [i|]; reflexivity.
Qed.

Lemma forceContentType_spec (hs : list IHttpHeader) :
  let hs' :=
    match findIndex (fun h => String.eqb (name h) "Content-Type") hs with
    | Some headerIndex => <[headerIndex := contentTypeHeader]> hs
    | None => hs ++ [contentTypeHeader]
    end in
  find isContentType hs' = Some contentTypeHeader /\
  filter (fun h => isContentType h = false) hs'
  = filter (fun h => isContentType h = false) hs /\
  match findIndex (fun h => String.eqb (name h) "Content-Type") hs' with
  | Some headerIndex => <[headerIndex := contentTypeHeader]> hs'
  | None => hs' ++ [contentTypeHeader]
  end = hs'.
Proof.
  induction hs as [|h rest IH].
  - cbv zeta. split; [reflexivity |]. split; reflexivity.
  - cbv zeta in *. rewrite forceContentType_cons.
    destruct (isContentType h) eqn:Hh.
    + split; [reflexivity |]. split.
      * rewrite !filter_cons. rewrite Hh.
        destruct (decide (isContentType contentTypeHeader = false)) as [Hc | _];
          [discriminate Hc |].
        destruct (decide (true = false)) as [Ht | _]; [discriminate Ht | reflexivity].
      * rewrite forceContentType_cons. reflexivity.
    + destruct IH as (IHfind & IHfilter & IHidem).
      split; [cbn [find]; rewrite Hh; exact IHfind |]. split.
      * rewrite !filter_cons. rewrite Hh.
        destruct (decide (false = false)) as [_ | Hf]; [| destruct (Hf eq_refl)].
        f_equal. exact IHfilter.
      * rewrite forceContentType_cons, Hh. f_equal. exact IHidem.
Qed.

Lemma prepareBody_structured (request : IHttpRequest) :
  match body request with
  | Some (BodyBuffer _) | Some (BodyString _) => False
  | _ => True
  end ->
  (prepareBody request).2
  = set_headers request
      match findIndex (fun h => String.eqb (name h) "Content-Type")
              (default [] (headers request)) with
      | Some headerIndex =>
          <[headerIndex := contentTypeHeader]> (default [] (headers request))
      | None => default [] (headers request) ++ [contentTypeHeader]
      end.
Proof.
  unfold prepareBody. destruct (body request) as [[b | s | json] |];
    intros Hb; try destruct Hb; reflexivity.
Qed.



Lemma prepareBody_written (request : IHttpRequest) :
  (prepareBody request).1
  = match body request with
    | Some (BodyBuffer b) => Some (BodyBuffer b)
    | Some (BodyString s) => Some (BodyString s)
    | Some (BodyValue json) => Some (BodyString json)
    | None => None
    end.
Proof.
  unfold prepareBody. destruct (body request) as [[b | s | json] |]; reflexivity.
Qed.

Lemma prepareBody_body (request : IHttpRequest) :
  body (prepareBody request).2 = body request.
Proof.
  unfold prepareBody. destruct (body request) as [[b | s | json] |] eqn:Hb;
    cbn [snd set_headers body]; congruence.
Qed.

(** X10.  Preparing the body twice is preparing it once: a request that
    went through the handler is left unchanged by a second pass, so a request
    that is re-issued does not collect [Content-Type] headers. *)
Theorem prepareBody_idempotent (request : IHttpRequest) :
  prepareBody (prepareBody request).2 = prepareBody request.
Proof.
  rewrite (surjective_pairing (prepareBody (prepareBody request).2)).
  rewrite (surjective_pairing (prepareBody request)) at 3.
  f_equal.
  - rewrite !prepareBody_written, prepareBody_body. reflexivity.
  - destruct (body request) as [[b | s | json] |] eqn:Hb.
    + unfold prepareBody at 2. rewrite Hb. cbn [snd].
      unfold prepareBody. rewrite Hb. reflexivity.
    + unfold prepareBody at 2. rewrite Hb. cbn [snd].
      unfold prepareBody. rewrite Hb. reflexivity.
    + assert (Hs : match body request with
                   | Some (BodyBuffer _) | Some (BodyString _) => False
                   | _ => True
                   end) by (rewrite Hb; exact I).
      assert (Hs' : match body (prepareBody request).2 with
                    | Some (BodyBuffer _) | Some (BodyString _) => False
                    | _ => True
                    end) by (rewrite prepareBody_body, Hb; exact I).
      rewrite (prepareBody_structured _ Hs'), (prepareBody_structured _ Hs).
      destruct (forceContentType_spec (default [] (headers request))) as (_ & _ & Hidem).
      cbv zeta in Hidem.
      set (forced := match findIndex _ (default [] (headers request)) with
                     | Some headerIndex => _
                     | None => _
                     end) in *.
      change (default [] (headers (set_headers request forced))) with forced.
      rewrite Hidem. reflexivity.
    + assert (Hs : match body request with
                   | Some (BodyBuffer _) | Some (BodyString _) => False
                   | _ => True
                   end) by (rewrite Hb; exact I).
      assert (Hs' : match body (prepareBody request).2 with
                    | Some (BodyBuffer _) | Some (BodyString _) => False
                    | _ => True
                    end) by (rewrite prepareBody_body, Hb; exact I).
      rewrite (prepareBody_structured _ Hs'), (prepareBody_structured _ Hs).
      destruct (forceContentType_spec (default [] (headers request))) as (_ & _ & Hidem).
      cbv zeta in Hidem.
      set (forced := match findIndex _ (default [] (headers request)) with
                     | Some headerIndex => _
                     | None => _
                     end) in *.
      change (default [] (headers (set_headers request forced))) with forced.
      rewrite Hidem. reflexivity.
Qed.

Lemma prepareBody_fields (request : IHttpRequest) :
  let request' := (prepareBody request).2 in
  method request' = method request /\ url request' = url request /\
  body request' = body request /\ sslVersion request' = sslVersion request /\
  clientCert request' = clientCert request /\
  match body request with
  | Some (BodyBuffer _) | Some (BodyString _) => request' = request
  | _ => True
  end.
Proof.
  unfold prepareBody. destruct (body request) as [[b | s | json] |] eqn:Hb;
    cbn [snd set_headers method url body sslVersion clientCert];
    rewrite ?Hb; repeat split.
Qed.

Section MoreNodeTransportProperties.
Context {W : Type}.
Variable url_protocol : string -> option string.
Variable url_host : string -> option string.
Variable https_throws : RequestOptions -> option JsError.
Variable handshake : RequestOptions -> W -> TlsHandshake.
Variable exchange : RequestOptions -> option Body -> W -> Settle IncomingMessage * W.

Lemma handleRequestAsync_request
    (validateServerCert : option ServerCertValidator) (pipeline : HttpPipeline)
    (request : IHttpRequest) (w : W) :
  (handleRequestAsync url_protocol url_host https_throws handshake exchange
     validateServerCert pipeline request w).1.2
  = (prepareBody request).2.
Proof.
  unfold handleRequestAsync.
  destruct (prepareBody request) as [b request'].
  repeat match goal with
         | |- context [send ?a ?b ?c ?d ?e ?f ?g ?h] =>
             destruct (send a b c d e f g h) as [? ?]
         | |- context [if ?c then _ else _] => destruct c
         | |- context [match secureOptions ?a ?b ?c with _ => _ end] =>
             destruct (secureOptions a b c)
         | |- context [match https_throws ?o with _ => _ end] =>
             destruct (https_throws o)
         end; reflexivity.
Qed.
End MoreNodeTransportProperties.

(** X11.  Whatever the URL, the certificate and the network do, the
    transport handler changes nothing of the request but its header list:
    method, URL, body, SSL version and client certificate are as before, and
    a request with a [Buffer] or string body is not changed at all. *)
Theorem handleRequestAsync_changes_headers_only {W : Type}
    (url_protocol : string -> option string) (url_host : string -> option string)
    (https_throws : RequestOptions -> option JsError)
    (handshake : RequestOptions -> W -> TlsHandshake)
    (exchange : RequestOptions -> option Body -> W -> Settle IncomingMessage * W)
    (validateServerCert : option ServerCertValidator) (pipeline : HttpPipeline)
    (request : IHttpRequest) (w : W) :
  let request' :=
    (handleRequestAsync url_protocol url_host https_throws handshake exchange
       validateServerCert pipeline request w).1.2 in
  method request' = method request /\ url request' = url request /\
  body request' = body request /\ sslVersion request' = sslVersion request /\
  clientCert request' = clientCert request /\
  match body request with
  | Some (BodyBuffer _) | Some (BodyString _) => request' = request
  | _ => True
  end.
Proof.
  cbv zeta. rewrite handleRequestAsync_request. apply prepareBody_fields.
Qed.

(** X12.  On an [https:] URL a client certificate of an unknown type makes
    the handler fail with "Invalid clientCert.type: ..." before anything is
    sent: the result is the same for every network, and the handlers' state
    is untouched. *)
Theorem handleRequestAsync_invalid_client_certificate {W : Type}
    (url_protocol : string -> option string) (url_host : string -> option string)
    (https_throws : RequestOptions -> option JsError)
    (handshake : RequestOptions -> W -> TlsHandshake)
    (exchange : RequestOptions -> option Body -> W -> Settle IncomingMessage * W)
    (validateServerCert : option ServerCertValidator) (pipeline : HttpPipeline)
    (request : IHttpRequest) (w : W) (type : string) :
  url_protocol (url request) = Some "https:" ->
  clientCert request = Some (UnknownCertificate type) ->
  handleRequestAsync url_protocol url_host https_throws handshake exchange
    validateServerCert pipeline request w
  = (Reject (Error ("Invalid clientCert.type: " +:+ type)), (prepareBody request).2, w).
Proof.
  intros Hproto Hcert. unfold handleRequestAsync.
  destruct (prepareBody_fields request) as (_ & _ & _ & _ & Hcert' & _).
  cbv zeta in Hcert'.
  destruct (prepareBody request) as [b request'] eqn:Hprep. cbn [snd] in Hcert'.
  unfold protocolIs. cbn [protocol withMethodAndHeaders initialOptions].
  rewrite Hproto. cbn [String.eqb Ascii.eqb Bool.eqb].
  unfold secureOptions. rewrite Hcert', Hcert. reflexivity.
Qed.

Lemma handleRequestAsync_invalid_client_certificate_witness :
  let request :=
    {| sslVersion := None; clientCert := Some (UnknownCertificate "jks");
       method := GET; url := "https://example.com/a";
       headers := None; body := Some (BodyString "x") |} in
  let socket := {| authorized := true; peerCertificate := None;
                   authorizationError := Error "unauthorized" |} in
  (handleRequestAsync (W := unit) sampleProtocol sampleHost (fun _ => None)
     (fun _ _ => socket) (fun _ _ w => (Never, w)) None
     {| requestTemplate := None; _requestHandlers := 0; _responseHandlers := 0 |}
     request tt).1.1
  = Reject (Error "Invalid clientCert.type: jks").
Proof.
  intros request socket.
  rewrite (handleRequestAsync_invalid_client_certificate sampleProtocol sampleHost
             (fun _ => None) (fun _ _ => socket) (fun _ _ w => (Never, w)) None
             {| requestTemplate := None; _requestHandlers := 0; _responseHandlers := 0 |}
             request tt "jks" eq_refl eq_refl).
  reflexivity.
Defined.

(** ** The per-site handler: sites, settled records, the attempt *)

(** X13.  From a new handler on, whatever the order of handler calls and
    settlements, as long as no call is for a request that carries
    [Authorization], no site ever has more than one authentication attempt
    started for it. *)
Theorem one_attempt_per_site_ever (url_host : string -> option string)
    (evs : list CoordinatorEvent) (siteId : string) :
  Forall withoutAuthorization evs ->
  (attemptsFor siteId (run url_host evs createResponseHandler).2 <= 1)%nat.
Proof.
  intros Hall.
  destruct (at_most_one_attempt_per_site url_host evs createResponseHandler Hall
              AtMostOneAttempt_initially siteId) as [Hle _].
  exact Hle.
Qed.

Lemma one_attempt_per_site_ever_witness :
  let request := sampleRequest GET "https://example.com/a" (Some [headerA]) in
  let response := sampleResponse 401 "Unauthorized" in
  let evs :=
    [HandlerCall request response; HandlerCall request response;
     PromiseSettles 0 (Rejected (Error "connect ECONNREFUSED"));
     HandlerCall request response] in
  (attemptsFor "example.com" (run sampleHost evs createResponseHandler).2 <= 1)%nat.
Proof.
  intros request response evs.
  apply (one_attempt_per_site_ever sampleHost evs "example.com").
  assert (Hcall : withoutAuthorization (HandlerCall request response)).
  { intros hs Hhs. injection Hhs as <-. reflexivity. }
  constructor 2; [exact Hcall |]. constructor 2; [exact Hcall |].
  constructor 2; [exact I |]. constructor 2; [exact Hcall |]. constructor 1.
Defined.

(** X14.  Sites are independent: a handler call for one site changes neither
    the record nor the number of attempts of any other site. *)
Theorem handleResponse_other_sites (url_host : string -> option string)
    (request : IHttpRequest) (response : IHttpResponse) (c : Coordinator)
    (siteId : string) :
  propertyKey (url_host (url request)) <> siteId ->
  let c' := (handleResponse url_host request response c).2 in
  siteMap c' !! siteId = siteMap c !! siteId /\
  attemptsFor siteId c' = attemptsFor siteId c.
Proof.
  intros Hne. cbv zeta.
  assert (Hstart :
    siteMap (startAttempt (propertyKey (url_host (url request))) c).2 !! siteId
      = siteMap c !! siteId /\
    attemptsFor siteId (startAttempt (propertyKey (url_host (url request))) c).2
      = attemptsFor siteId c).
  { split.
    - cbn [startAttempt snd siteMap]. apply lookup_insert_ne. exact Hne.
    - rewrite attemptsFor_startAttempt.
      destruct (decide (propertyKey (url_host (url request)) = siteId));
        [contradiction | lia]. }
  unfold handleResponse.
  destruct (bool_decide (statusCode response ≠ 401)
            && bool_decide (statusCode response ≠ 403)); [split; reflexivity |].
  destruct (headers request) as [hs|]; [| split; reflexivity].
  destruct (negb (hasAuthorization hs)); [| exact Hstart].
  destruct (siteMap c !! propertyKey (url_host (url request))) as [[p | |]|];
    first [exact Hstart | split; reflexivity].
Qed.

Lemma handleResponse_other_sites_witness :
  let request := sampleRequest GET "https://example.com/a" (Some [bearer]) in
  let response := sampleResponse 401 "Unauthorized" in
  let c := {| siteMap := {[ "example.org" := RecordRetry ]}; tokenPromises := [] |} in
  let c' := (handleResponse sampleHost request response c).2 in
  siteMap c' !! "example.org" = Some RecordRetry /\
  attemptsFor "example.org" c' = 0%nat.
Proof.
  intros request response c c'.
  assert (Hne : propertyKey (sampleHost (url request)) <> "example.org")
    by (intros Heq; discriminate Heq).
  destruct (handleResponse_other_sites sampleHost request response c "example.org" Hne)
    as [Hrec Hatt].
  fold c' in Hrec, Hatt. rewrite Hrec, Hatt. split; reflexivity.
Defined.

(** X15.  A settled record is final for requests without [Authorization]:
    once a site is recorded as [Retry] (or [NotSupported]), any number of
    401/403 answers for it start no attempt and leave the handler's state as
    it is; each of them retries the request (or returns no value). *)
Theorem settled_record_is_final (url_host : string -> option string)
    (siteId : string) (record : SiteRecord)
    (calls : list (IHttpRequest * IHttpResponse)) (c : Coordinator) :
  siteMap c !! siteId = Some record ->
  record = RecordRetry \/ record = RecordNotSupported ->
  Forall (unauthenticatedChallenge url_host siteId) calls ->
  run url_host (handlerCalls calls) c
  = (map (fun _ => inr match record with
                       | RecordRetry => ReturnRetry
                       | _ => ReturnUndefined
                       end) calls, c).
Proof.
  intros Hrec Hkind Hall. induction Hall as [|call rest Hcall _ IH]; [reflexivity |].
  destruct Hcall as (Hstatus & Hsite & hs & Hhs & Hauth).
  cbn [handlerCalls map run].
  rewrite (handleResponse_challenge url_host call.1 call.2 c hs Hstatus Hhs).
  cbv zeta. rewrite Hauth, Hsite, Hrec.
  fold (handlerCalls rest).
  destruct Hkind as [-> | ->]; rewrite IH; reflexivity.
Qed.

Lemma settled_record_is_final_witness :
  let call := (sampleRequest GET "https://example.com/a" (Some []),
               sampleResponse 403 "Forbidden") in
  let c := {| siteMap := {[ "example.com" := RecordNotSupported ]};
              tokenPromises := [{| tp_siteId := "example.com";
                                   tp_state := Fulfilled None |}] |} in
  run sampleHost (handlerCalls [call; call]) c
  = ([inr ReturnUndefined; inr ReturnUndefined], c).
Proof.
  intros call c.
  assert (Hcall : unauthenticatedChallenge sampleHost "example.com" call).
  { split; [right; reflexivity |]. split; [reflexivity |].
    exists []. split; reflexivity. }
  apply (settled_record_is_final sampleHost "example.com" RecordNotSupported
           [call; call] c eq_refl (or_intror eq_refl)).
  constructor 2; [exact Hcall |]. constructor 2; [exact Hcall |]. constructor 1.
Defined.

(** X16.  The login flow is reached only when the metadata request is
    answered 200 with metadata of type ["aad"]: in every other case the
    attempt settles the same way whatever the login flow is, and it never
    yields a response (so the site is never recorded as [Retry]). *)
Theorem acquireTokenAsync_login_only_for_aad {W : Type}
    (url_resolve : string -> string -> string)
    (pipeline_requestAsync : IHttpRequest -> W -> Settle IHttpResponse * W)
    (request : IHttpRequest) (response : IHttpResponse) (w w' : W)
    (r : Settle IHttpResponse) :
  pipeline_requestAsync (metadataRequest url_resolve request) w = (r, w') ->
  ~ (exists answer md,
       r = Fulfil answer /\ statusCode answer = 200 /\
       data answer = Some md /\ md_type md = "aad") ->
  forall login1 login2,
    acquireTokenAsync url_resolve pipeline_requestAsync login1 request response w
    = acquireTokenAsync url_resolve pipeline_requestAsync login2 request response w /\
    forall established,
      (acquireTokenAsync url_resolve pipeline_requestAsync login1 request response w).1
      <> Fulfil (Some established).
Proof.
  intros Hm Hnot login1 login2. unfold acquireTokenAsync. rewrite Hm.
  destruct r as [answer | e |].
  - destruct (bool_decide (statusCode answer ≠ 200)) eqn:Hstatus.
    + split; [reflexivity | intros x Heq; discriminate Heq].
    + apply bool_decide_eq_false in Hstatus.
      assert (Hok : statusCode answer = 200).
      { destruct (decide (statusCode answer = 200)) as [Heq | Hne];
          [exact Heq | destruct (Hstatus Hne)]. }
      destruct (data answer) as [md|] eqn:Hdata.
      * destruct (String.eqb_spec (md_type md) "aad") as [Htype | Htype].
        -- exfalso. apply Hnot. exists answer, md. repeat split; assumption.
        -- split; [reflexivity | intros x Heq; discriminate Heq].
      * split; [reflexivity | intros x Heq; discriminate Heq].
  - split; [reflexivity | intros x Heq; discriminate Heq].
  - split; [reflexivity | intros x Heq; discriminate Heq].
Qed.

Lemma acquireTokenAsync_login_only_for_aad_witness :
  let request := sampleRequest GET "https://example.com/a" (Some []) in
  let response := sampleResponse 401 "Unauthorized" in
  let metadataAnswer (_ : IHttpRequest) (w : unit) :=
    (Fulfil (sampleResponse 404 "Not Found"), w) in
  (acquireTokenAsync sampleResolve metadataAnswer
     (fun _ _ _ w => (Fulfil (Some (sampleResponse 200 "OK")), w))
     request response tt).1
  = Fulfil None.
Proof.
  intros request response metadataAnswer.
  assert (Hnot : ~ (exists answer md,
            Fulfil (sampleResponse 404 "Not Found") = Fulfil answer /\
            statusCode answer = 200 /\ data answer = Some md /\ md_type md = "aad")).
  { intros (answer & md & Heq & Hstatus & _). injection Heq as <-. discriminate Hstatus. }
  destruct (acquireTokenAsync_login_only_for_aad sampleResolve metadataAnswer
              request response tt tt (Fulfil (sampleResponse 404 "Not Found"))
              eq_refl Hnot
              (fun _ _ _ w => (Fulfil (Some (sampleResponse 200 "OK")), w))
              (fun _ _ _ w => (Never, w))) as [Hsame _].
  rewrite Hsame. reflexivity.
Defined.

(** ** The dependency-injection container *)

Section DiProperties.
Context {D A V : Type}.
Variable isEmptyOrWhitespace : string -> bool.

(** X17.  What was set last under a name is what [get] returns: after
    [set(name, descriptor)] on a container with the default dictionary,
    [get(name)] gives that descriptor ([undefined] when the descriptor was
    [undefined], which deletes the entry), and [get] of any other name gives
    what it gave before. *)
Theorem container_get_after_set (n n' : string) (descriptor : option D)
    (c : DiContainer (gmap string D)) :
  isEmptyOrWhitespace n = false ->
  isEmptyOrWhitespace n' = false ->
  exists c',
    container_set isEmptyOrWhitespace
      (IDiDescriptorDictionary0 := DiDescriptorDictionary isEmptyOrWhitespace) n descriptor c
    = inr c' /\
    container_get isEmptyOrWhitespace
      (IDiDescriptorDictionary0 := DiDescriptorDictionary isEmptyOrWhitespace) n' c'
    = if decide (n' = n) then inr descriptor
      else container_get isEmptyOrWhitespace
             (IDiDescriptorDictionary0 := DiDescriptorDictionary isEmptyOrWhitespace) n' c.
Proof.
  intros Hn Hn'. unfold container_set, container_get.
  cbn [dict_get dict_set DiDescriptorDictionary].
  unfold dictionary_set, dictionary_get. rewrite Hn, Hn'.
  destruct descriptor as [x|]; eexists; (split; [reflexivity |]);
    cbn [descriptorDictionary];
    destruct (decide (n' = n)) as [-> | Hne].
  - rewrite lookup_insert_eq. reflexivity.
  - rewrite lookup_insert_ne by congruence. reflexivity.
  - rewrite lookup_delete_eq. reflexivity.
  - rewrite lookup_delete_ne by congruence. reflexivity.
Qed.

(** X18.  A name that is empty or blank is refused by [get], [set] and
    [getDep] with the same error, whatever dictionary the container was
    given: the dictionary is not consulted, no descriptor is called and the
    container is not changed. *)
Theorem container_refuses_blank_names {Dict : Type}
    `{!IDiDescriptorDictionary D Dict}
    (call : D -> DiContainer Dict -> list A -> V * DiContainer Dict)
    (n : string) (descriptor : option D) (extraArgs : list A)
    (c : DiContainer Dict) :
  isEmptyOrWhitespace n = true ->
  container_get isEmptyOrWhitespace n c = inl nameError /\
  container_set isEmptyOrWhitespace n descriptor c = inl nameError /\
  getDep isEmptyOrWhitespace call n extraArgs c = inl nameError.
Proof.
  intros Hn. unfold getDep, container_get, container_set. rewrite Hn.
  repeat split.
Qed.

(** X19.  [getDep] after [set]: with the default dictionary, the descriptor
    set under a name is the one [getDep] calls, with the container that holds
    it and the extra arguments; after [set(name, undefined)], [getDep] of
    that name is [undefined] and calls nothing. *)
Theorem getDep_after_set
    (call : D -> DiContainer (gmap string D) -> list A ->
            V * DiContainer (gmap string D))
    (n : string) (descriptor : option D) (extraArgs : list A)
    (c : DiContainer (gmap string D)) :
  isEmptyOrWhitespace n = false ->
  exists c',
    container_set isEmptyOrWhitespace
      (IDiDescriptorDictionary0 := DiDescriptorDictionary isEmptyOrWhitespace) n descriptor c
    = inr c' /\
    getDep isEmptyOrWhitespace
      (IDiDescriptorDictionary0 := DiDescriptorDictionary isEmptyOrWhitespace) call n extraArgs c'
    = inr match descriptor with
          | Some d => let '(v, c'') := call d c' extraArgs in (Some v, c'')
          | None => (None, c')
          end.
Proof.
  intros Hn. unfold getDep, container_set, container_get.
  cbn [dict_get dict_set DiDescriptorDictionary].
  unfold dictionary_set, dictionary_get. rewrite Hn.
  destruct descriptor as [d|]; eexists; (split; [reflexivity |]);
    cbn [descriptorDictionary].
  - rewrite lookup_insert_eq. destruct (call d _ extraArgs). reflexivity.
  - rewrite lookup_delete_eq. reflexivity.
Qed.
End DiProperties.

Lemma container_get_after_set_witness :
  exists c',
    container_set sampleIsBlank
      (IDiDescriptorDictionary0 := DiDescriptorDictionary sampleIsBlank) "log" (Some 7%nat) newDiContainer
    = inr c' /\
    container_get sampleIsBlank
      (IDiDescriptorDictionary0 := DiDescriptorDictionary sampleIsBlank) "log" c'
    = inr (Some 7%nat).
Proof.
  destruct (container_get_after_set sampleIsBlank "log" "log" (Some 7%nat)
              newDiContainer eq_refl eq_refl) as (c' & Hset & Hget).
  exists c'. split; [exact Hset |]. rewrite Hget. reflexivity.
Defined.

Lemma container_refuses_blank_names_witness :
  container_set sampleIsBlank
    (IDiDescriptorDictionary0 := DiDescriptorDictionary sampleIsBlank) "  " (Some 7%nat) newDiContainer
  = inl nameError.
Proof.
  destruct (container_refuses_blank_names (A := unit) (V := nat) sampleIsBlank
              (IDiDescriptorDictionary0 := DiDescriptorDictionary sampleIsBlank)
              (fun d c _ => (d, c)) "  " (Some 7%nat) [] newDiContainer eq_refl)
    as (_ & Hset & _).
  exact Hset.
Defined.

Lemma getDep_after_set_witness :
  exists c',
    container_set sampleIsBlank
      (IDiDescriptorDictionary0 := DiDescriptorDictionary sampleIsBlank) "answer" (Some 41%nat) newDiContainer
    = inr c' /\
    getDep sampleIsBlank
      (IDiDescriptorDictionary0 := DiDescriptorDictionary sampleIsBlank)
      (fun d c (args : list nat) => (d + List.length args, c)%nat)
      "answer" [0%nat] c'
    = inr (Some 42%nat, c').
Proof.
  destruct (getDep_after_set sampleIsBlank
              (fun d c (args : list nat) => (d + List.length args, c)%nat)
              "answer" (Some 41%nat) [0%nat] newDiContainer eq_refl)
    as (c' & Hset & Hdep).
  exists c'. split; [exact Hset | exact Hdep].
Defined.

(** ** The log's logger list *)

Section LoggerProperties.
Context {L : Type}.
Variable logger_name : L -> string.
Variable isString : JsName -> bool.
Variable isObject : L -> bool.

Lemma removeFirstNamed_skip (name : JsName) (before rest : list L) :
  (forall l, l ∈ before -> strictEquals name (logger_name l) = false) ->
  removeFirstNamed logger_name name (before ++ rest)
  = ((removeFirstNamed logger_name name rest).1,
     before ++ (removeFirstNamed logger_name name rest).2).
Proof.
  intros Hbefore. induction before as [|l before IH].
  - cbn [app]. destruct (removeFirstNamed logger_name name rest); reflexivity.
  - cbn [app removeFirstNamed].
    rewrite (Hbefore l) by apply list_elem_of_here.
    rewrite IH by (intros l' Hl'; apply Hbefore, list_elem_of_further, Hl').
    reflexivity.
Qed.

Lemma strictEquals_name (n s : string) :
  strictEquals (NameString n) s = bool_decide (n = s).
Proof.
  cbn [strictEquals]. destruct (String.eqb_spec n s) as [Heq | Hne].
  - rewrite bool_decide_eq_true_2 by exact Heq. reflexivity.
  - rewrite bool_decide_eq_false_2 by exact Hne. reflexivity.
Qed.

(** X20.  [removeLoggerAsync] removes the first logger that has the name,
    and only that one: it is returned, and the loggers before and behind it
    stay, in their order (later loggers of the same name included). *)
Theorem removeLoggerAsync_first_match (n : string) (before : list L) (l : L)
    (after : list L) :
  isString (NameString n) = true ->
  (forall l', l' ∈ before -> logger_name l' <> n) ->
  logger_name l = n ->
  removeLoggerAsync logger_name isString (NameString n) (before ++ l :: after)
  = inr (Some l, before ++ after).
Proof.
  intros Hstr Hbefore Hl. unfold removeLoggerAsync. rewrite Hstr. cbn [negb].
  rewrite removeFirstNamed_skip.
  - cbn [removeFirstNamed]. rewrite strictEquals_name.
    rewrite bool_decide_eq_true_2 by (symmetry; exact Hl). reflexivity.
  - intros l' Hl'. rewrite strictEquals_name.
    apply bool_decide_eq_false_2. intros Heq. apply (Hbefore l' Hl').
    symmetry. exact Heq.
Qed.

(** X21.  Removing a name no logger has changes nothing: the result is
    [undefined] and the logger list is as before. *)
Theorem removeLoggerAsync_unknown_name (name : JsName) (loggers : list L) :
  isString name = true ->
  (forall l, l ∈ loggers -> strictEquals name (logger_name l) = false) ->
  removeLoggerAsync logger_name isString name loggers = inr (None, loggers).
Proof.
  intros Hstr Hnone. unfold removeLoggerAsync. rewrite Hstr. cbn [negb].
  rewrite <- (app_nil_r loggers) at 1.
  rewrite (removeFirstNamed_skip name loggers [] Hnone).
  cbn [removeFirstNamed fst snd]. rewrite app_nil_r. reflexivity.
Qed.

(** X22.  Adding a logger and then removing it by its name gives the logger
    back and restores the list, provided no logger registered before has the
    same name. *)
Theorem addLoggerAsync_removeLoggerAsync (l : L) (loggers : list L) :
  isObject l = true ->
  isString (NameString (logger_name l)) = true ->
  (forall l', l' ∈ loggers -> logger_name l' <> logger_name l) ->
  exists loggers',
    addLoggerAsync isObject (Some l) loggers = inr loggers' /\
    removeLoggerAsync logger_name isString (NameString (logger_name l)) loggers'
    = inr (Some l, loggers).
Proof.
  intros Hobj Hstr Hfresh. unfold addLoggerAsync. rewrite Hobj. cbn [negb].
  eexists. split; [reflexivity |].
  unfold removeLoggerAsync. rewrite Hstr. cbn [negb].
  rewrite removeFirstNamed_skip.
  - cbn [removeFirstNamed]. rewrite strictEquals_name.
    rewrite bool_decide_eq_true_2 by reflexivity.
    cbn [fst snd]. rewrite app_nil_r. reflexivity.
  - intros l' Hl'. rewrite strictEquals_name.
    apply bool_decide_eq_false_2. intros Heq. apply (Hfresh l' Hl').
    symmetry. exact Heq.
Qed.
End LoggerProperties.

(** Loggers as (name, identity) pairs. *)
Lemma removeLoggerAsync_first_match_witness :
  removeLoggerAsync (L := string * nat) fst sampleIsString (NameString "file")
    ([("console", 0%nat)] ++ ("file", 1%nat) :: [("file", 2%nat)])
  = inr (Some ("file", 1%nat), [("console", 0%nat)] ++ [("file", 2%nat)]).
Proof.
  apply (removeLoggerAsync_first_match (L := string * nat) fst sampleIsString "file"
           [("console", 0%nat)] ("file", 1%nat) [("file", 2%nat)]).
  - reflexivity.
  - intros l' Hl'. apply list_elem_of_singleton in Hl'. subst l'.
    intros Heq. discriminate Heq.
  - reflexivity.
Defined.

Lemma removeLoggerAsync_unknown_name_witness :
  removeLoggerAsync (L := string * nat) fst sampleIsString (NameString "file")
    [("console", 0%nat)]
  = inr (None, [("console", 0%nat)]).
Proof.
  apply (removeLoggerAsync_unknown_name (L := string * nat) fst sampleIsString
           (NameString "file") [("console", 0%nat)]).
  - reflexivity.
  - intros l Hl. apply list_elem_of_singleton in Hl. subst l. reflexivity.
Defined.

Lemma addLoggerAsync_removeLoggerAsync_witness :
  exists loggers',
    addLoggerAsync (L := string * nat) (fun _ => true) (Some ("file", 1%nat))
      [("console", 0%nat)]
    = inr loggers' /\
    removeLoggerAsync fst sampleIsString (NameString "file") loggers'
    = inr (Some ("file", 1%nat), [("console", 0%nat)]).
Proof.
  apply (addLoggerAsync_removeLoggerAsync (L := string * nat) fst sampleIsString
           (fun _ => true) ("file", 1%nat) [("console", 0%nat)]).
  - reflexivity.
  - reflexivity.
  - intros l' Hl'. apply list_elem_of_singleton in Hl'. subst l'.
    intros Heq. discriminate Heq.
Defined.

(** ** The per-site handler in a pipeline *)

(** X23.  In a pipeline whose response chain is the per-site handler alone,
    a response is handed to the caller as it is when its status is neither
    401 nor 403, and also when it is a 401/403 for a request with a header
    list without [Authorization] whose site is recorded as [NotSupported]:
    in both cases no attempt is started and nothing is awaited. *)
Theorem requestAsync_handler_passes_response {W : Type}
    (url_host : string -> option string)
    (coordinator : W -> Coordinator) (set_coordinator : Coordinator -> W -> W)
    (await : HandlerReturn -> IHttpRequest -> W ->
             Settle (option IHttpResponse) * IHttpRequest * W)
    (p : HttpPipeline) (request : IHttpRequest) (s : PState W)
    (before : list (HttpRequestHandler W)) (h : HttpRequestHandler W)
    (after : list (HttpRequestHandler W))
    (request1 : IHttpRequest) (w1 : W) (response : IHttpResponse)
    (request2 : IHttpRequest) (w2 : W) :
  requestChain p s = before ++ h :: after ->
  responseChain p s = [responseHandler url_host coordinator set_coordinator await] ->
  Declined p before (effectiveRequest (requestTemplate p) request) (world s)
    request1 w1 ->
  h p request1 w1 = (Fulfil (Some response), request2, w2) ->
  (statusCode response <> 401 /\ statusCode response <> 403) \/
  (exists hs, headers request2 = Some hs /\ hasAuthorization hs = false /\
              siteMap (coordinator w2) !! propertyKey (url_host (url request2))
              = Some RecordNotSupported) ->
  let result := requestAsync p request s in
  result.1 = (Fulfil response, request2) /\
  world result.2 = set_coordinator (coordinator w2) w2.
Proof.
  intros Hchain Hresp Hdecl Hh Hcase result.
  assert (Hhandle :
    handleResponse url_host request2 response (coordinator w2)
    = (inr ReturnUndefined, coordinator w2)).
  { destruct Hcase as [[H401 H403] | (hs & Hhs & Hauth & Hrec)].
    - apply handleResponse_other_status; assumption.
    - unfold handleResponse.
      destruct (bool_decide (statusCode response ≠ 401)
                && bool_decide (statusCode response ≠ 403)); [reflexivity |].
      rewrite Hhs, Hauth, Hrec. reflexivity. }
  unfold result, requestAsync.
  set (e := effectiveRequest (requestTemplate p) request) in *.
  change (array_read (_requestHandlers p)
            (requestArrays (writeInfoAsync (startMessage e) s)))
    with (requestChain p s).
  rewrite Hchain.
  rewrite (dispatchRequest_first_responder p before h after e (world s)
             request1 w1 response request2 w2 Hdecl Hh 0%nat
             (writeInfoAsync (startMessage e) s) eq_refl).
  match goal with
  | |- context [array_read (_responseHandlers p) (responseArrays ?st)] =>
      change (array_read (_responseHandlers p) (responseArrays st))
        with (responseChain p s)
  end.
  assert (Hrh :
    responseHandler url_host coordinator set_coordinator await p request2 response w2
    = (Fulfil None, request2, set_coordinator (coordinator w2) w2)).
  { unfold responseHandler. rewrite Hhandle. reflexivity. }
  rewrite Hresp. cbn [processResponse world writeInfoAsync record_event extend].
  rewrite Hrh. split; reflexivity.
Qed.

Lemma requestAsync_handler_passes_response_witness :
  let p := {| requestTemplate := None; _requestHandlers := 0; _responseHandlers := 0 |} in
  let denied := sampleResponse 403 "Forbidden" in
  let handler : HttpResponseHandler Coordinator :=
    responseHandler sampleHost (fun c => c) (fun c _ => c)
      (fun _ request c => (Never, request, c)) in
  let s : PState Coordinator :=
    {| trace := [];
       requestArrays := {[ 0%nat := [answering denied] ]};
       responseArrays := {[ 0%nat := [handler] ]};
       world := {| siteMap := {[ "example.com" := RecordNotSupported ]};
                   tokenPromises := [] |} |} in
  let request := sampleRequest GET "https://example.com/a" (Some [headerA]) in
  (requestAsync p request s).1 = (Fulfil denied, request).
Proof.
  intros p denied handler s request.
  destruct (requestAsync_handler_passes_response sampleHost (fun c => c)
              (fun c _ => c) (fun _ rq c => (Never, rq, c)) p request s
              [] (answering denied) [] request (world s) denied request (world s)
              eq_refl eq_refl (Declined_nil p _ _) eq_refl
              (or_intror (ex_intro _ [headerA]
                            (conj eq_refl (conj eq_refl eq_refl)))))
    as [Hres _].
  exact Hres.
Defined.
